(** * internetarchive.utils: the lazy item list and the iterable-to-file adapter

  A shallow embedding of the two stateful classes of
  [src/internetarchive/utils.py]:

  - [IterableToFileAdapter] (lines 89-98), a file-like reader over an
  iterator of chunks, and
  - [IdentifierListAsItems] (lines 101-128), a list of identifiers whose
  items are fetched from the session on first access.

  Python integers are [Z], identifiers are [string], byte strings are
  lists of [byte].  A Python call either returns or raises, and keeps
  whatever it mutated before raising: a method is a function from the
  state to a [result] paired with the state it leaves behind. *)

From Stdlib Require Import ZArith Lia.
From Stdlib.Strings Require Import Byte.
From stdpp Require Import base list strings.

Local Open Scope Z_scope.

(** ** The fragment of Python the two classes use *)

Module Py.

(** Exceptions, by class.  [except ValueError] selects on the class, so
  an instance of a subclass of [ValueError] (a JSON decoding error, a
  Unicode error) is represented as a [ValueError] with its message. *)
Inductive exn_class : Type :=
  | IndexError
  | ValueError
  | AttributeError
  | OtherError (name : string).

Record exn : Type := Exn { exn_cls : exn_class; exn_args : string }.

Definition is_ValueError (e : exn) : bool :=
  match exn_cls e with ValueError => true | _ => false end.

(** The outcome of evaluating an expression. *)
Inductive result (A : Type) : Type :=
  | Ok (a : A)
  | Raise (e : exn).
Arguments Ok {A} a.
Arguments Raise {A} e.

Definition is_Ok {A} (r : result A) : bool :=
  match r with Ok _ => true | Raise _ => false end.

(** An object reference that may be [None]. *)
Inductive value (Obj : Type) : Type :=
  | PyNone
  | PyObj (o : Obj).
Arguments PyNone {Obj}.
Arguments PyObj {Obj} o.

Definition is_None {Obj} (v : value Obj) : bool :=
  match v with PyNone => true | PyObj _ => false end.

(** [l[i]] and [l[i] = x] for an integer [i]: a negative index counts
  from the end, an index outside [-len(l), len(l)) raises IndexError. *)
Definition norm_index (len : nat) (i : Z) : option nat :=
  let j := if i <? 0 then i + Z.of_nat len else i in
  if (0 <=? j) && (j <? Z.of_nat len) then Some (Z.to_nat j) else None.

Definition list_getitem {A} (l : list A) (i : Z) : result A :=
  match norm_index (length l) i with
  | Some j =>
    match l !! j with
    | Some x => Ok x
    | None => Raise (Exn IndexError "list index out of range")
    end
  | None => Raise (Exn IndexError "list index out of range")
  end.

Definition list_setitem {A} (l : list A) (i : Z) (x : A) : result (list A) :=
  match norm_index (length l) i with
  | Some j => Ok (<[j := x]> l)
  | None => Raise (Exn IndexError "list assignment index out of range")
  end.

(** [l.index(x)]: the position of the first element equal to [x]. *)
Fixpoint first_index (l : list string) (x : string) : option nat :=
  match l with
  | [] => None
  | y :: l' => if decide (y = x) then Some 0%nat else S <$> first_index l' x
  end.

Definition list_index (l : list string) (x : string) : result Z :=
  match first_index l x with
  | Some j => Ok (Z.of_nat j)
  | None => Raise (Exn ValueError "x not in list")
  end.

(** [slice(start, stop, step)], each component an integer or [None]. *)
Record slice : Type :=
  Slice { start : option Z; stop : option Z; step : option Z }.

(** [s.indices(len)]: the step defaults to 1 and must not be 0; start
  and stop are clipped to the bounds of a sequence of [len] elements
  in the direction of the step. *)
Definition clip (len lower upper dflt : Z) (o : option Z) : Z :=
  match o with
  | None => dflt
  | Some x => if x <? 0 then Z.max (x + len) lower else Z.min x upper
  end.

Definition slice_indices (s : slice) (len : Z) : result (Z * Z * Z) :=
  let st := default 1 (step s) in
  if st =? 0 then Raise (Exn ValueError "slice step cannot be zero")
  else
  let lower := if st <? 0 then -1 else 0 in
  let upper := if st <? 0 then len - 1 else len in
  Ok (clip len lower upper (if st <? 0 then upper else lower) (start s),
      clip len lower upper (if st <? 0 then lower else upper) (stop s),
      st).

(** [range(lo, hi, st)] as the list it iterates over. *)
Definition range_length (lo hi st : Z) : Z :=
  if (0 <? st) && (lo <? hi) then 1 + (hi - 1 - lo) / st
  else if (st <? 0) && (hi <? lo) then 1 + (lo - 1 - hi) / (- st)
  else 0.

Definition range (lo hi st : Z) : result (list Z) :=
  if st =? 0 then Raise (Exn ValueError "range() arg 3 must not be zero")
  else Ok (map (fun k : nat => lo + Z.of_nat k * st)
             (seq 0 (Z.to_nat (range_length lo hi st)))).

(** The positions a slice selects in a sequence of [len] elements: the
  range over the three numbers [s.indices(len)] returns. *)
Definition slice_range (s : slice) (len : Z) : result (list Z) :=
  match slice_indices s len with
  | Ok (lo, hi, st) => range lo hi st
  | Raise e => Raise e
  end.

(** [l[s]] for a slice [s]: the elements at the positions the slice
  selects, in the order it selects them. *)
Fixpoint getitems {A} (l : list A) (sel : list Z) : result (list A) :=
  match sel with
  | [] => Ok []
  | i :: sel' =>
    match list_getitem l i with
    | Ok x =>
        match getitems l sel' with
        | Ok xs => Ok (x :: xs)
        | Raise e => Raise e
        end
    | Raise e => Raise e
    end
  end.

Definition list_getslice {A} (l : list A) (s : slice) : result (list A) :=
  match slice_range s (Z.of_nat (length l)) with
  | Ok sel => getitems l sel
  | Raise e => Raise e
  end.

(** The order in which a list of positions runs. *)
Definition ascending (sel : list Z) : Prop :=
  forall (a b : nat) (x y : Z),
    (a < b)%nat -> sel !! a = Some x -> sel !! b = Some y -> x < y.

Definition descending (sel : list Z) : Prop :=
  forall (a b : nat) (x y : Z),
    (a < b)%nat -> sel !! a = Some x -> sel !! b = Some y -> y < x.

(** The iterator protocol: [next(it, default)] yields the next element
  and the advanced iterator, or the default once [it] is exhausted. *)
Class Iterator (I A : Type) := iter_next : I -> option (A * I).

Definition next {I A} `{Iterator I A} (it : I) (dflt : A) : A * I :=
  match iter_next it with
  | Some (x, it') => (x, it')
  | None => (dflt, it)
  end.

(** [iter(l)] for a list [l]: the state of the iterator is the list of
  the elements not yet produced. *)
#[global] Instance list_iterator {A} : Iterator (list A) A :=
  fun l => match l with [] => None | x :: l' => Some (x, l') end.

End Py.

Import Py.

(** ** class IterableToFileAdapter *)

Module IterableToFileAdapter.

Definition bytes : Type := list byte.

Section Adapter.
Context {I : Type} `{Iterator I bytes}.

Record t : Type := Build { iterator : I; length : Z }.

(** [__init__(self, iterable, size)]; [iterable] is given by the
    iterator [iter(iterable)] returns. *)
Definition __init__ (iterable : I) (size : Z) : t :=
  {| iterator := iterable; length := size |}.

(** [read(self, size=-1)]: [return next(self.iterator, b'')] *)
Definition read (self : t) (size : Z) : bytes * t :=
  let (chunk, it') := next (iterator self) [] in
  (chunk, {| iterator := it'; length := length self |}).

(** [__len__(self)]: [return self.length] *)
Definition __len__ (self : t) : Z := length self.

(** [n] successive reads with the sizes [sizes]: the chunks returned
    and the adapter afterwards. *)
Fixpoint reads (self : t) (sizes : list Z) : list bytes * t :=
  match sizes with
  | [] => ([], self)
  | sz :: sizes' =>
      let (c, self') := read self sz in
      let (cs, self'') := reads self' sizes' in
      (c :: cs, self'')
  end.
End Adapter.

Arguments t I : clear implicits.

End IterableToFileAdapter.

(** ** class IdentifierListAsItems *)

Module IdentifierListAsItems.

(** The first argument of the constructor: a list of identifiers, or
    anything else, which the library passes as one identifier. *)
Inductive id_arg : Type :=
| IdList (l : list string)
| SingleId (s : string).

(** What [__getitem__] is indexed with. *)
Inductive index : Type :=
| Int (i : Z)
| Slc (s : slice).

Section Collection.
Context {Item W : Type}.

(** [session.get_item(identifier)].  The session belongs to another
    module: a call returns an object, which may be [None], or raises, and
    leaves the session in a new state [W]. *)
Variable get_item : string -> W -> result (value Item) * W.

(** The fields [ids] and [_items] of the object. *)
Record t : Type := Build { ids : list string; _items : list (value Item) }.

(** One call of [session.get_item], as the session sees it. *)
Record call : Type := Call { call_key : string; call_ret : result (value Item) }.

(** The object, the state of its session, and the calls the session has
    received so far, oldest first. *)
Record state : Type := State { self : t; session : W; trace : list call }.

(** [__init__(self, id_list_or_single_id, session)]:
    [self.ids = id_list_or_single_id
         if isinstance(id_list_or_single_id, list)
         else [id_list_or_single_id]
     self._items = [None] * len(self.ids)]
    The session is kept by reference: it is the state [W] the methods
    run in. *)
Definition __init__ (a : id_arg) : t :=
  let ids := match a with IdList l => l | SingleId s => [s] end in
  {| ids := ids; _items := replicate (length ids) PyNone |}.

Definition new (a : id_arg) (w : W) : state :=
  {| self := __init__ a; session := w; trace := [] |}.

(** Methods run in the state and may raise; what was mutated before an
    exception stays mutated. *)
Definition M (A : Type) : Type := state -> result A * state.

#[global] Instance M_ret : MRet M := fun A a s => (Ok a, s).

#[global] Instance M_bind : MBind M := fun A B f m s =>
  match m s with
  | (Ok a, s') => f a s'
  | (Raise e, s') => (Raise e, s')
  end.

Definition eval {A} (f : t -> result A) : M A := fun s => (f (self s), s).

Definition session_get_item (k : string) : M (value Item) := fun s =>
  let (r, w') := get_item k (session s) in
  (r, {| self := self s; session := w'; trace := trace s ++ [Call k r] |}).

Definition store_item (i : Z) (x : value Item) : M unit := fun s =>
  match list_setitem (_items (self s)) i x with
  | Ok l' =>
      (Ok tt, {| self := {| ids := ids (self s); _items := l' |};
                 session := session s; trace := trace s |})
  | Raise e => (Raise e, s)
  end.

Fixpoint for_each {A} (l : list A) (body : A -> M unit) : M unit :=
  match l with
  | [] => mret tt
  | x :: l' => body x ;; for_each l' body
  end.

(** [__len__(self)]: [return len(self.ids)] *)
Definition __len__ (o : t) : Z := Z.of_nat (length (ids o)).

(** The body of the loop of [__getitem__]:
    [if self._items[i] is None:
         self._items[i] = self.session.get_item(self.ids[i])] *)
Definition resolve (i : Z) : M unit :=
  v ← eval (fun o => list_getitem (_items o) i);
  if is_None v then
    k ← eval (fun o => list_getitem (ids o) i);
    x ← session_get_item k;
    store_item i x
  else mret tt.

(** What [__getitem__] returns: one object for an integer, a list of
    objects for a slice. *)
Inductive items : Type :=
| One (v : value Item)
| Many (l : list (value Item)).

(** [__getitem__(self, idx)] *)
Definition __getitem__ (idx : index) : M items :=
  sel ← match idx with
        | Slc sl => eval (fun o => slice_range sl (__len__ o))
        | Int i => mret [i]
        end;
  for_each sel resolve ;;
  match idx with
  | Int i => v ← eval (fun o => list_getitem (_items o) i); mret (One v)
  | Slc sl => l ← eval (fun o => list_getslice (_items o) sl); mret (Many l)
  end.

(** [__getattr__(self, name)], which Python calls for a name that is not
    an ordinary attribute of the object:
    [try: return self[self.ids.index(name)]
     except ValueError: raise AttributeError]
    The [try] covers the lookup of the name and the access that follows
    it. *)
Definition __getattr__ (name : string) : M items := fun s =>
  match (i ← eval (fun o => list_index (ids o) name); __getitem__ (Int i)) s with
  | (Raise e, s') =>
      if is_ValueError e then (Raise (Exn AttributeError ""), s')
      else (Raise e, s')
  | r => r
  end.

(** The three methods a caller can invoke, and what they answer. *)
Inductive method : Type :=
| len_
| getitem_ (idx : index)
| getattr_ (name : string).

Inductive answer : Type :=
| Length (n : Z)
| Items (r : items).

Definition invoke (m : method) : M answer :=
  match m with
  | len_ => n ← eval (fun o => Ok (__len__ o)); mret (Length n)
  | getitem_ idx => r ← __getitem__ idx; mret (Items r)
  | getattr_ name => r ← __getattr__ name; mret (Items r)
  end.

(** A caller invoking methods one after the other, going on after an
    exception: the outcomes, and the state at the end. *)
Fixpoint invoke_all (ms : list method) (s : state) : list (result answer) * state :=
  match ms with
  | [] => ([], s)
  | m :: ms' =>
      let (r, s') := invoke m s in
      let (rs, s'') := invoke_all ms' s' in
      (r :: rs, s'')
  end.

(** [len(self.ids) == len(self._items)] *)
Definition inv (o : t) : Prop := length (ids o) = length (_items o).

(** Slot [i] of [l] holds [None]. *)
Definition unset (l : list (value Item)) (i : Z) : bool :=
  match l !! Z.to_nat i with
  | Some PyNone => true
  | _ => false
  end.

End Collection.

Arguments t Item : clear implicits.
Arguments answer Item : clear implicits.
Arguments call Item : clear implicits.
Arguments items Item : clear implicits.
Arguments state Item W : clear implicits.

End IdentifierListAsItems.

(** ** Sessions and sources used in the examples *)

Module Sessions.

(** A session that serves every identifier: the item is named after it,
    and the state counts the requests. *)
Definition echo (k : string) (w : nat) : result (value string) * nat :=
  (Ok (PyObj k), S w).

(** A session whose [get_item] returns [None]. *)
Definition nothing (k : string) (w : nat) : result (value string) * nat :=
  (Ok PyNone, S w).

(** A session whose metadata request fails to decode: [get_item] raises
    a [ValueError]. *)
Definition bad_json (k : string) (w : nat) : result (value string) * nat :=
  (Raise (Exn ValueError "No JSON object could be decoded"), S w).

(** A session that fails on its first request and serves the later ones. *)
Definition flaky (k : string) (w : nat) : result (value string) * nat :=
  match w with
  | O => (Raise (Exn (OtherError "ConnectionError") "timed out"), S w)
  | S _ => (Ok (PyObj k), S w)
  end.

(** The chunks [b"ab"] and [b"cd"]. *)
Definition ab : list byte := ["a"; "b"]%byte.
Definition cd : list byte := ["c"; "d"]%byte.

(** A collection of three identifiers, and one whose identifier "a"
    comes second and fourth, both freshly constructed on a session that
    has served no request. *)
Definition abc : IdentifierListAsItems.state string nat :=
  IdentifierListAsItems.new (IdentifierListAsItems.IdList ["a"; "b"; "c"]) 0%nat.

Definition baca : IdentifierListAsItems.state string nat :=
  IdentifierListAsItems.new (IdentifierListAsItems.IdList ["b"; "a"; "c"; "a"]) 0%nat.

End Sessions.

(** ** File objects: [chunk_generator] and [get_md5] *)

Module File.

(** A regular file opened for reading in binary mode, [open(path, 'rb')]
    in Python 3, whose content does not change while it is read: its
    bytes, and the position of the next read (which [seek] may have put
    past the end). *)
Record t : Type := Build { content : list byte; pos : nat }.

(** The bytes from the position to the end. *)
Definition rest (f : t) : list byte := drop (pos f) (content f).

(** The largest size a read takes, [sys.maxsize], on a 64-bit build. *)
Definition ssize_max : Z := 2 ^ 63 - 1.

Definition OverflowError : exn := Exn (OtherError "OverflowError") "".

(** The sizes a read accepts: -1, or a number of bytes. *)
Definition accepts (size : Z) : bool := (-1 <=? size) && (size <=? ssize_max).

(** [fp.read(size)]: at most [size] bytes from the position, all of
    them if [size] is -1; the position moves past them.  A size that
    does not fit a machine word raises [OverflowError], any other
    negative size raises [ValueError]; the file is then where it was. *)
Definition read (f : t) (size : Z) : result (list byte) * t :=
  if (size <? - ssize_max - 1) || (ssize_max <? size) then
    (Raise OverflowError, f)
  else if size <? -1 then
    (Raise (Exn ValueError "read length must be non-negative or -1"), f)
  else
    let data := if size =? -1 then rest f else take (Z.to_nat size) (rest f) in
    (Ok data, {| content := content f; pos := pos f + length data |}).

(** [fp.seek(offset, os.SEEK_SET)] *)
Definition seek (f : t) (offset : nat) : t :=
  {| content := content f; pos := offset |}.

End File.

Module ChunkGenerator.

(** The generator [chunk_generator(fp, chunk_size)] between two steps;
    it owns the file, and it is finished once its body has ended or
    raised.
    [while True:
         chunk = fp.read(chunk_size)
         if not chunk:
             break
         yield chunk] *)
Record t : Type := Build { fp : File.t; chunk_size : Z; finished : bool }.

Definition chunk_generator (fp : File.t) (chunk_size : Z) : t :=
  {| fp := fp; chunk_size := chunk_size; finished := false |}.

(** What [next(g)] does: it yields a chunk, or it ends (StopIteration),
    or the exception of the read comes out of it. *)
Inductive step : Type :=
| Yield (chunk : list byte)
| Stop
| Fail (e : exn).

Definition next_chunk (g : t) : step * t :=
  if finished g then (Stop, g)
  else
    match File.read (fp g) (chunk_size g) with
    | (Raise e, fp') =>
        (Fail e, {| fp := fp'; chunk_size := chunk_size g; finished := true |})
    | (Ok [], fp') =>
        (Stop, {| fp := fp'; chunk_size := chunk_size g; finished := true |})
    | (Ok (b :: data), fp') =>
        (Yield (b :: data),
         {| fp := fp'; chunk_size := chunk_size g; finished := false |})
    end.

(** [list(g)], giving up after [fuel] steps: the chunks yielded until
    the generator ended or raised, the exception if it raised, and the
    generator then. *)
Fixpoint drain (fuel : nat) (g : t) : option (list (list byte) * option exn * t) :=
  match fuel with
  | O => None
  | S n =>
      match next_chunk g with
      | (Yield chunk, g') =>
          match drain n g' with
          | Some (chunks, e, g'') => Some (chunk :: chunks, e, g'')
          | None => None
          end
      | (Stop, g') => Some ([], None, g')
      | (Fail e, g') => Some ([], Some e, g')
      end
  end.

(** A generator whose chunk size its file accepts.  Its reads do not
    raise, so it is an iterator in the sense of [Iterator], which has no
    exceptions: the last case below is the end of the generator. *)
Record checked : Type :=
  Checked { gen : t; gen_ok : File.accepts (chunk_size gen) = true }.

#[global] Instance iterator : Iterator checked (list byte) := fun c =>
  match next_chunk (gen c) with
  | (Yield chunk, g') =>
      Some (chunk,
            {| gen := {| fp := fp g'; chunk_size := chunk_size (gen c);
                         finished := finished g' |};
               gen_ok := gen_ok c |})
  | _ => None
  end.

(** [list(it)], giving up after [fuel] elements: what the iterator
    produced until it was exhausted, and the iterator then. *)
Fixpoint collect {I A : Type} `{Iterator I A} (fuel : nat) (it : I)
  : option (list A * I) :=
  match fuel with
  | O => None
  | S n =>
      match iter_next it with
      | None => Some ([], it)
      | Some (x, it') =>
          match collect n it' with
          | Some (xs, it'') => Some (x :: xs, it'')
          | None => None
          end
      end
  end.

End ChunkGenerator.

Module Md5.

Section Hash.
(** [hashlib.md5()]: the hash object just created, [m.update(data)] and
    [m.hexdigest()]. *)
Context {H : Type}.
Variables (md5 : H) (update : H -> list byte -> H) (hexdigest : H -> string).

(** The loop of [get_md5], giving up after [fuel] reads:
    [while True:
         data = file_object.read(8192)
         if not data:
             break
         m.update(data)] *)
Fixpoint digest_loop (fuel : nat) (m : H) (f : File.t)
  : option (result H * File.t) :=
  match fuel with
  | O => None
  | S n =>
      match File.read f 8192 with
      | (Raise e, f') => Some (Raise e, f')
      | (Ok [], f') => Some (Ok m, f')
      | (Ok (b :: data), f') => digest_loop n (update m (b :: data)) f'
      end
  end.

(** [get_md5(file_object)]: the digest, and the file afterwards. *)
Definition get_md5 (fuel : nat) (file_object : File.t)
  : option (result string * File.t) :=
  match digest_loop fuel md5 file_object with
  | Some (Ok m, f') => Some (Ok (hexdigest m), File.seek f' 0)
  | Some (Raise e, f') => Some (Raise e, f')
  | None => None
  end.

End Hash.

End Md5.

(** ** [deep_update] *)

Module DeepUpdate.

Section Values.
Context {A : Type}.

(** The values [deep_update] meets: a mapping from strings, with its
    items in insertion order, or anything else (a string, a number, a
    list, [None]): an object of a type that is no [Mapping], has no [get]
    and no assignment to a string key.  Values are taken by content;
    the objects, and with them a mapping that is held in two places,
    are in [DeepUpdateStore] below, where [deep_update] does to separate
    objects what it does here to their values. *)
#[warnings="-register-all"]
Inductive val : Type :=
| Atom (a : A)
| Dict (items : list (string * val)).

(** [d.get(k)] *)
Fixpoint dict_get (items : list (string * val)) (k : string) : option val :=
  match items with
  | [] => None
  | (k', v) :: rest => if decide (k' = k) then Some v else dict_get rest k
  end.

(** [d[k] = v]: the value of a key the mapping has is replaced where it
    is, a new key is added at the end. *)
Fixpoint dict_set (items : list (string * val)) (k : string) (v : val)
  : list (string * val) :=
  match items with
  | [] => [(k, v)]
  | (k', v') :: rest =>
      if decide (k' = k) then (k', v) :: rest
      else (k', v') :: dict_set rest k v
  end.

(** [deep_update(d, u)]:
    [for k, v in u.items():
         if isinstance(v, Mapping):
             r = deep_update(d.get(k, {}), v)
             d[k] = r
         else:
             d[k] = u[k]
     return d]
    The function works on [d] in place and returns it: the result is the
    exception raised, if any, and [d] as the call leaves it.  A mapping
    found under [k] is updated in place, so what an inner call did to it
    before raising is seen in [d]; the mapping made for a missing key is
    put in [d] only when the inner call returns.  The message of an
    exception, which names the type of the object, is left empty. *)
Fixpoint deep_update (d u : val) {struct u} : option exn * val :=
  match u with
  | Atom _ => (Some (Exn AttributeError ""), d)
  | Dict uitems =>
      (fix loop (uitems : list (string * val)) (d : val) {struct uitems}
         : option exn * val :=
         match uitems with
         | [] => (None, d)
         | (k, v) :: rest =>
             match v, d with
             | Dict _, Atom _ => (Some (Exn AttributeError ""), d)
             | Dict _, Dict ditems =>
                 match dict_get ditems k with
                 | Some sub =>
                     match deep_update sub v with
                     | (None, sub') => loop rest (Dict (dict_set ditems k sub'))
                     | (Some e, sub') => (Some e, Dict (dict_set ditems k sub'))
                     end
                 | None =>
                     match deep_update (Dict []) v with
                     | (None, sub') => loop rest (Dict (dict_set ditems k sub'))
                     | (Some e, _) => (Some e, d)
                     end
                 end
             | Atom _, Atom _ => (Some (Exn (OtherError "TypeError") ""), d)
             | Atom _, Dict ditems => loop rest (Dict (dict_set ditems k v))
             end
         end) uitems d
  end.

(** The keys of a mapping are distinct, at every level. *)
Fixpoint wf (v : val) : Prop :=
  match v with
  | Atom _ => True
  | Dict items =>
      NoDup (fst <$> items) /\
      (fix all (items : list (string * val)) : Prop :=
         match items with
         | [] => True
         | (_, v) :: rest => wf v /\ all rest
         end) items
  end.

(** [d] has a mapping, or no item, wherever [u] has a non-empty
    mapping. *)
Fixpoint fits (d u : val) {struct u} : Prop :=
  match u with
  | Atom _ => False
  | Dict uitems =>
      match uitems, d with
      | [], _ => True
      | _ :: _, Atom _ => False
      | _ :: _, Dict ditems =>
          (fix all (uitems : list (string * val)) : Prop :=
             match uitems with
             | [] => True
             | (k, v) :: rest =>
                 match v with
                 | Atom _ => True
                 | Dict _ => fits (default (Dict []) (dict_get ditems k)) v
                 end /\ all rest
             end) uitems
      end
  end.

End Values.

Arguments val A : clear implicits.

End DeepUpdate.

(** ** [deep_update] on objects *)

Module DeepUpdateStore.

Section Store.
Context {A : Type}.

(** A reference: to an object that is no mapping, given by its value
    (no such object is changed by [deep_update]), or to the mapping at
    an address. *)
Inductive ref : Type :=
| Obj (a : A)
| Ptr (l : nat).

(** A mapping, with its items in insertion order, and the store of all
    mappings by address; a new mapping gets the next address. *)
Local Abbreviation dict := (list (string * ref)).
Local Abbreviation store := (list dict).

(** [d.get(k)] and [d[k] = x] on the items of a mapping. *)
Fixpoint get (items : dict) (k : string) : option ref :=
  match items with
  | [] => None
  | (k', x) :: rest => if decide (k' = k) then Some x else get rest k
  end.

Fixpoint set (items : dict) (k : string) (x : ref) : dict :=
  match items with
  | [] => [(k, x)]
  | (k', x') :: rest =>
      if decide (k' = k) then (k', x) :: rest
      else (k', x') :: set rest k x
  end.

(** [d[k] = x] for the mapping [d] at address [l]. *)
Definition setitem (h : store) (l : nat) (k : string) (x : ref) : store :=
  alter (fun items => set items k x) l h.

Definition TypeError : exn := Exn (OtherError "TypeError") "".
Definition AttributeError : exn := Exn Py.AttributeError "".
Definition RuntimeError : exn :=
  Exn (OtherError "RuntimeError") "dictionary changed size during iteration".

(** The loop [for k, v in u.items(): ...] of [deep_update(d, u)], with
    [u] the mapping at [lu], which had [size] items when the loop began:
    [i] items are done and at most [todo] are left.  Each turn takes
    item [i] of the mapping as it is then, and raises [RuntimeError] if
    the number of its items has changed (Python 3).  [inner] is
    [deep_update] for the call in the body.  The empty mapping made for
    [d.get(k, {})] enters the store only when [d] has no [k]. *)
Fixpoint items_loop (inner : store -> ref -> ref -> option (option exn * store))
    (lu size : nat) (d : ref) (todo i : nat) (h : store)
  : option (option exn * store) :=
  match h !! lu with
  | None => None
  | Some uitems =>
      if negb (length uitems =? size)%nat then Some (Some RuntimeError, h)
      else
        match uitems !! i, todo with
        | None, _ => Some (None, h)
        | Some _, O => None
        | Some (k, v), S todo' =>
            match v, d with
            | Ptr _, Obj _ => Some (Some AttributeError, h)
            | Ptr _, Ptr ld =>
                match h !! ld with
                | None => None
                | Some ditems =>
                    match get ditems k with
                    | Some sub =>
                        match inner h sub v with
                        | Some (None, h1) =>
                            items_loop inner lu size d todo' (S i)
                                       (setitem h1 ld k sub)
                        | other => other
                        end
                    | None =>
                        match inner (h ++ [[]]) (Ptr (length h)) v with
                        | Some (None, h1) =>
                            items_loop inner lu size d todo' (S i)
                                       (setitem h1 ld k (Ptr (length h)))
                        | other => other
                        end
                    end
                end
            | Obj _, Obj _ => Some (Some TypeError, h)
            | Obj _, Ptr ld =>
                items_loop inner lu size d todo' (S i) (setitem h ld k v)
            end
        end
  end.

(** [deep_update(d, u)] in the store [h], with calls nested at most
    [fuel] deep: the exception raised, if any, and the store afterwards
    (the call returns [d]).
    [for k, v in u.items():
         if isinstance(v, Mapping):
             r = deep_update(d.get(k, {}), v)
             d[k] = r
         else:
             d[k] = u[k]
     return d] *)
Fixpoint deep_update (fuel : nat) (h : store) (d u : ref)
  : option (option exn * store) :=
  match fuel with
  | O => None
  | S fuel' =>
      match u with
      | Obj _ => Some (Some AttributeError, h)
      | Ptr lu =>
          match h !! lu with
          | None => None
          | Some uitems =>
              items_loop (deep_update fuel') lu (length uitems) d
                         (length uitems) 0%nat h
          end
      end
  end.

(** The reference [r] stands in the store [h] for the value [t]. *)
Fixpoint repr (h : store) (r : ref) (t : DeepUpdate.val A) {struct t} : Prop :=
  match t with
  | DeepUpdate.Atom a => r = Obj a
  | DeepUpdate.Dict titems =>
      match r with
      | Obj _ => False
      | Ptr l =>
          match h !! l with
          | None => False
          | Some items =>
              (fix all (items : dict) (titems : list (string * DeepUpdate.val A))
                   {struct titems} : Prop :=
                 match items, titems with
                 | [], [] => True
                 | (k, r') :: items', (k', t') :: titems' =>
                     k = k' /\ repr h r' t' /\ all items' titems'
                 | _, _ => False
                 end) items titems
          end
      end
  end.

(** The addresses of the mappings met on the way, each as often as it
    is met. *)
Fixpoint footprint (h : store) (r : ref) (t : DeepUpdate.val A) {struct t}
  : list nat :=
  match t, r with
  | DeepUpdate.Dict titems, Ptr l =>
      l :: match h !! l with
           | None => []
           | Some items =>
               (fix go (items : dict) (titems : list (string * DeepUpdate.val A))
                    {struct titems} : list nat :=
                  match items, titems with
                  | (_, r') :: items', (_, t') :: titems' =>
                      footprint h r' t' ++ go items' titems'
                  | _, _ => []
                  end) items titems
           end
  | _, _ => []
  end.

(** The items of a mapping stand, one by one, for the items of a
    value, and the addresses met in them. *)
Definition items_repr (h : store) (items : dict)
    (titems : list (string * DeepUpdate.val A)) : Prop :=
  Forall2 (fun kr kt => kr.1 = kt.1 /\ repr h kr.2 kt.2) items titems.

Definition items_footprint (h : store) (items : dict)
    (titems : list (string * DeepUpdate.val A)) : list nat :=
  concat (zip_with (fun kr kt => footprint h kr.2 kt.2) items titems).

(** [d] stands for [td] and [u] for [tu], no mapping is met twice in
    [d], and none of [d] is met in [u]. *)
Definition separate (h : store) (d : ref) (td : DeepUpdate.val A)
    (u : ref) (tu : DeepUpdate.val A) : Prop :=
  repr h d td /\ repr h u tu /\
  NoDup (footprint h d td) /\
  Forall (fun l => l ∉ footprint h u tu) (footprint h d td).

(** From [h], where [d] stood for [td], to [h']: [d] stands for [td']
    and still meets no mapping twice; the mappings it meets are some it
    met before and new ones; no mapping of [h] that [d] did not meet
    has changed. *)
Definition updates (h : store) (d : ref) (td : DeepUpdate.val A)
    (h' : store) (td' : DeepUpdate.val A) : Prop :=
  repr h' d td' /\ NoDup (footprint h' d td') /\
  (length h <= length h')%nat /\
  (forall l, l ∈ footprint h' d td' ->
     l ∈ footprint h d td \/ (length h <= l)%nat) /\
  (forall l, (l < length h)%nat -> l ∉ footprint h d td -> h' !! l = h !! l).

(** [inner] does to separate values in the store what [deep_update]
    does to the values they stand for. *)
Definition refines (inner : store -> ref -> ref -> option (option exn * store))
    (tu : DeepUpdate.val A) : Prop :=
  forall h d td u,
    separate h d td u tu ->
    exists h',
      inner h d u = Some (fst (DeepUpdate.deep_update td tu), h') /\
      updates h d td h' (snd (DeepUpdate.deep_update td tu)).

(** How deep the mappings of a value are nested. *)
Fixpoint depth (t : DeepUpdate.val A) : nat :=
  match t with
  | DeepUpdate.Atom _ => 0%nat
  | DeepUpdate.Dict titems =>
      S ((fix go (titems : list (string * DeepUpdate.val A)) : nat :=
            match titems with
            | [] => 0%nat
            | (_, t') :: titems' => Nat.max (depth t') (go titems')
            end) titems)
  end.

End Store.

Arguments ref A : clear implicits.

Abbreviation dict A := (list (string * ref A)).
Abbreviation store A := (list (dict A)).

End DeepUpdateStore.

(** ** [validate_ia_identifier] and [needs_quote] *)

Module Identifier.

(** A string, as the sequence of its characters, each given by its code
    point. *)
Definition text : Type := list N.

Definition code_points (s : string) : text :=
  Ascii.N_of_ascii <$> String.list_ascii_of_string s.

(** [c in s] for a character [c] *)
Definition contains (s : text) (c : N) : bool := existsb (N.eqb c) s.

Definition legal_chars : text :=
  code_points "abcdefghijklmnopqrstuvwxyzABCDEFGHIJKLMNOPQRSTUVWXYZ0123456789_-".

Definition AssertionError : exn := Exn (OtherError "AssertionError") "".

(** [validate_ia_identifier(string)], run with assertions enabled:
    [assert 80 >= len(string) >= 3
     assert all(c in legal_chars for c in string)
     return True] *)
Definition validate_ia_identifier (s : text) : result bool :=
  if negb ((length s <=? 80)%nat && (3 <=? length s)%nat) then Raise AssertionError
  else if negb (forallb (contains legal_chars) s) then Raise AssertionError
  else Ok true.

(** The characters [\s] matches: for a byte string, and for a text
    string, where the separators 28 to 31 count as whitespace too.  (The
    characters from 128 on that a text pattern also matches are left out:
    [needs_quote] does not search a string that has one.) *)
Definition space_bytes (c : N) : bool :=
  contains [9; 10; 11; 12; 13; 32]%N c.

Definition space_text (c : N) : bool :=
  contains [9; 10; 11; 12; 13; 28; 29; 30; 31; 32]%N c.

(** [needs_quote(s)], for the class [space] of the characters that [\s]
    matches:
    [try: s.encode('ascii')
     except (UnicodeDecodeError, UnicodeEncodeError): return True
     return re.search(r'\s', s) is not None] *)
Definition needs_quote (space : N -> bool) (s : text) : bool :=
  if forallb (fun c => (c <? 128)%N) s then existsb space s else true.

(** Letters, digits, underscore and hyphen of ASCII. *)
Definition alnum_dash (c : N) : Prop :=
  (97 <= c <= 122 \/ 65 <= c <= 90 \/ 48 <= c <= 57 \/ c = 95 \/ c = 45)%N.

Definition alnum_dashb (c : N) : bool :=
  ((97 <=? c) && (c <=? 122) || (65 <=? c) && (c <=? 90)
   || (48 <=? c) && (c <=? 57) || (c =? 95) || (c =? 45))%N.

End Identifier.

(** ** [map2x] *)

Module Map2x.

Section Map2x.
Context {A B : Type}.

(** [zip_longest] of the iterables: as long as one of the iterables has an
    element left, the tuple of the next element of each, [None] standing
    for the element of an exhausted one.  The iterables are given by the
    lists of their elements, and so is the result. *)
Definition exhausted (ls : list (list (value A))) : bool :=
  forallb (fun l => match l with [] => true | _ :: _ => false end) ls.

Definition heads (ls : list (list (value A))) : list (value A) :=
  (fun l => match l with [] => PyNone | x :: _ => x end) <$> ls.

Definition tails (ls : list (list (value A))) : list (list (value A)) :=
  (fun l => match l with [] => [] | _ :: l' => l' end) <$> ls.

Fixpoint zip_longest_upto (fuel : nat) (ls : list (list (value A)))
  : list (list (value A)) :=
  match fuel with
  | O => []
  | S n =>
      if exhausted ls then []
      else heads ls :: zip_longest_upto n (tails ls)
  end.

Definition zip_longest (ls : list (list (value A))) : list (list (value A)) :=
  zip_longest_upto (max_list (length <$> ls)) ls.

(** What [map2x] returns: the tuples, or the results of [func]. *)
Inductive mapped : Type :=
| Tuples (l : list (list (value A)))
| Results (l : list B).

(** [map2x] of [func] and the iterables:
    [zipped = zip_longest of the iterables
     if func is None:
         return zipped
     return starmap(func, zipped)] *)
Definition map2x (func : option (list (value A) -> B))
    (iterables : list (list (value A))) : mapped :=
  let zipped := zip_longest iterables in
  match func with
  | None => Tuples zipped
  | Some f => Results (f <$> zipped)
  end.

End Map2x.

Arguments mapped A B : clear implicits.

End Map2x.

(** ** Data used in the examples of the sections that follow *)

Module Fixtures.

(** A file of five bytes, the first of them already read. *)
Definition abcde : File.t :=
  File.Build ["a"; "b"; "c"; "d"; "e"]%byte 1.

(** The generator of the chunks of three bytes of that file. *)
Definition abcde_by_3 : ChunkGenerator.checked :=
  ChunkGenerator.Checked (ChunkGenerator.chunk_generator abcde 3) eq_refl.

(** A hash object that keeps the bytes it was fed. *)
Definition fed_new : list byte := [].
Definition fed_update (m data : list byte) : list byte := m ++ data.
Definition fed_digest (m : list byte) : string := String.string_of_list_byte m.

(** The metadata of an item, and a patch for it. *)
Definition metadata : DeepUpdate.val string :=
  DeepUpdate.Dict
    [("title", DeepUpdate.Atom "old");
     ("meta", DeepUpdate.Dict [("a", DeepUpdate.Atom "1")])].

Definition patch : DeepUpdate.val string :=
  DeepUpdate.Dict
    [("meta", DeepUpdate.Dict [("b", DeepUpdate.Atom "2")]);
     ("title", DeepUpdate.Atom "new");
     ("tags", DeepUpdate.Dict [])].

(** A store with [metadata] at address 0 and [patch] at address 2,
    the mappings they hold at 1, 3 and 4, and [{'meta': 'none'}] at 5. *)
Definition shelf : DeepUpdateStore.store string :=
  [ [("title", DeepUpdateStore.Obj "old"); ("meta", DeepUpdateStore.Ptr 1)];
    [("a", DeepUpdateStore.Obj "1")];
    [("meta", DeepUpdateStore.Ptr 3); ("title", DeepUpdateStore.Obj "new");
     ("tags", DeepUpdateStore.Ptr 4)];
    [("b", DeepUpdateStore.Obj "2")];
    [];
    [("meta", DeepUpdateStore.Obj "none")] ].

(** A store where the mapping at 0 holds the mapping at 1 under two
    keys: [d = {'a': x, 'b': x}] with [x = {'p': '1'}], and
    [u = {'a': {'q': '2'}}] at 2. *)
Definition shared : DeepUpdateStore.store string :=
  [ [("a", DeepUpdateStore.Ptr 1); ("b", DeepUpdateStore.Ptr 1)];
    [("p", DeepUpdateStore.Obj "1")];
    [("a", DeepUpdateStore.Ptr 3)];
    [("q", DeepUpdateStore.Obj "2")] ].

End Fixtures.

(** * Properties *)

(** ** Indices, slices and ranges *)

Section PyFacts.

Lemma norm_index_Some (n : nat) (i : Z) (j : nat) :
  norm_index n i = Some j ->
  (j < n)%nat /\ - Z.of_nat n <= i < Z.of_nat n /\
  Z.of_nat j = (if i <? 0 then i + Z.of_nat n else i).
Proof.
  unfold norm_index. destruct (Z.ltb_spec i 0);
    match goal with |- context [(0 <=? ?a) && (?a <? ?b)] =>
      destruct (Z.leb_spec 0 a), (Z.ltb_spec a b) end;
    simpl; intros [= <-]; repeat split; lia.
Qed.

Lemma norm_index_None (n : nat) (i : Z) :
  norm_index n i = None <-> i < - Z.of_nat n \/ Z.of_nat n <= i.
Proof.
  unfold norm_index. destruct (Z.ltb_spec i 0);
    match goal with |- context [(0 <=? ?a) && (?a <? ?b)] =>
      destruct (Z.leb_spec 0 a), (Z.ltb_spec a b) end;
    simpl; split; intros; try done; lia.
Qed.

Lemma norm_index_nonneg (n : nat) (j : nat) :
  (j < n)%nat -> norm_index n (Z.of_nat j) = Some j.
Proof.
  intros Hj. unfold norm_index.
  destruct (Z.ltb_spec (Z.of_nat j) 0); [lia|].
  destruct (Z.leb_spec 0 (Z.of_nat j)); [|lia].
  destruct (Z.ltb_spec (Z.of_nat j) (Z.of_nat n)); [|lia].
  simpl. by rewrite Nat2Z.id.
Qed.

(** Index [-k] and index [n - k] name the same position. *)
Lemma norm_index_neg (n : nat) (k : Z) :
  1 <= k <= Z.of_nat n ->
  norm_index n (- k) = Some (Z.to_nat (Z.of_nat n - k)) /\
  norm_index n (Z.of_nat n - k) = Some (Z.to_nat (Z.of_nat n - k)).
Proof.
  intros Hk. unfold norm_index.
  destruct (Z.ltb_spec (- k) 0); [|lia].
  destruct (Z.ltb_spec (Z.of_nat n - k) 0); [lia|].
  replace (- k + Z.of_nat n) with (Z.of_nat n - k) by lia.
  destruct (Z.leb_spec 0 (Z.of_nat n - k)); [|lia].
  destruct (Z.ltb_spec (Z.of_nat n - k) (Z.of_nat n)); [|lia].
  done.
Qed.

Lemma norm_index_in_range (n : nat) (i : Z) :
  - Z.of_nat n <= i < Z.of_nat n -> exists j, norm_index n i = Some j.
Proof.
  intros Hi. destruct (norm_index n i) eqn:E; [eauto|].
  apply norm_index_None in E. lia.
Qed.

Lemma list_getitem_norm {A} (l : list A) (i : Z) (j : nat) :
  norm_index (length l) i = Some j ->
  exists x, l !! j = Some x /\ list_getitem l i = Ok x.
Proof.
  intros E. unfold list_getitem. rewrite E.
  apply norm_index_Some in E as (Hj & _).
  destruct (lookup_lt_is_Some_2 l j Hj) as [x Hx].
  exists x. by rewrite Hx.
Qed.

Lemma first_index_Some (l : list string) (x : string) (j : nat) :
  first_index l x = Some j ->
  l !! j = Some x /\ forall j', (j' < j)%nat -> l !! j' <> Some x.
Proof.
  revert j. induction l as [|y l IH]; intros j; simpl; [done|].
  destruct (decide (y = x)) as [->|Hne].
  - intros [= <-]. split; [done|]. intros j' Hj'. lia.
  - destruct (first_index l x) as [j0|]; simpl; [|done].
    intros [= <-]. destruct (IH j0 eq_refl) as [Hj0 Hmin].
    split; [done|]. intros [|j'] Hj'; simpl.
    + congruence.
    + apply Hmin. lia.
Qed.

Lemma first_index_None (l : list string) (x : string) :
  first_index l x = None <-> x ∉ l.
Proof.
  induction l as [|y l IH]; simpl.
  - split; [intros _; apply not_elem_of_nil|done].
  - destruct (decide (y = x)) as [->|Hne].
    + split; [done|]. intros Hx. exfalso. apply Hx. left.
    + rewrite not_elem_of_cons. destruct (first_index l x); simpl.
      * split; [done|]. intros [_ Hx]. by apply IH in Hx.
      * split; [|done]. intros _. split; [congruence|]. by apply IH.
Qed.

Lemma range_lookup (lo hi st : Z) (sel : list Z) (k : nat) (x : Z) :
  range lo hi st = Ok sel -> sel !! k = Some x ->
  x = lo + Z.of_nat k * st /\ Z.of_nat k < range_length lo hi st.
Proof.
  unfold range. destruct (st =? 0); [done|]. intros [= <-].
  rewrite list_lookup_fmap. intros Hk.
  apply fmap_Some in Hk as (k' & Hk' & ->).
  apply lookup_seq in Hk' as [-> Hlt]. simpl. split; [done|lia].
Qed.

Lemma range_bounds (lo hi st : Z) (sel : list Z) (x : Z) :
  range lo hi st = Ok sel -> x ∈ sel ->
  (0 < st /\ lo <= x < hi) \/ (st < 0 /\ hi < x <= lo).
Proof.
  intros Hr Hx. apply list_elem_of_lookup in Hx as [k Hk].
  destruct (range_lookup _ _ _ _ _ _ Hr Hk) as [-> Hlen].
  unfold range_length in Hlen.
  destruct (Z.ltb_spec 0 st) as [Hst|Hst], (Z.ltb_spec lo hi) as [Hlh|Hlh];
    simpl in Hlen.
  - left. pose proof (Z.mul_div_le (hi - 1 - lo) st Hst). nia.
  - destruct (Z.ltb_spec st 0); [lia|]. simpl in Hlen. lia.
  - destruct (Z.ltb_spec st 0), (Z.ltb_spec hi lo); simpl in Hlen; lia.
  - destruct (Z.ltb_spec st 0) as [Hneg|], (Z.ltb_spec hi lo) as [Hhl|];
      simpl in Hlen; try lia.
    right. assert (0 < - st) as Hpos by lia.
    pose proof (Z.mul_div_le (lo - 1 - hi) (- st) Hpos). nia.
Qed.

Lemma range_ascending (lo hi st : Z) (sel : list Z) :
  range lo hi st = Ok sel -> 0 < st -> ascending sel.
Proof.
  intros Hr Hst a b x y Hab Ha Hb.
  destruct (range_lookup _ _ _ _ _ _ Hr Ha) as [-> _].
  destruct (range_lookup _ _ _ _ _ _ Hr Hb) as [-> _]. nia.
Qed.

Lemma range_descending (lo hi st : Z) (sel : list Z) :
  range lo hi st = Ok sel -> st < 0 -> descending sel.
Proof.
  intros Hr Hst a b x y Hab Ha Hb.
  destruct (range_lookup _ _ _ _ _ _ Hr Ha) as [-> _].
  destruct (range_lookup _ _ _ _ _ _ Hr Hb) as [-> _]. nia.
Qed.

Lemma range_NoDup (lo hi st : Z) (sel : list Z) :
  range lo hi st = Ok sel -> NoDup sel.
Proof.
  intros Hr. apply NoDup_alt. intros a b x Ha Hb.
  destruct (range_lookup _ _ _ _ _ _ Hr Ha) as [-> _].
  destruct (range_lookup _ _ _ _ _ _ Hr Hb) as [Heq _].
  assert (st <> 0) as Hst.
  { unfold range in Hr. destruct (Z.eqb_spec st 0); [done|lia]. }
  nia.
Qed.

Lemma clip_bounds (len lower upper dflt : Z) (o : option Z) :
  0 <= len -> lower <= 0 -> lower <= upper -> len - 1 <= upper <= len ->
  lower <= dflt <= upper ->
  lower <= clip len lower upper dflt o <= upper.
Proof.
  intros Hlen Hlo Hlu Hup Hd. unfold clip. destruct o as [x|]; [|done].
  destruct (Z.ltb_spec x 0); lia.
Qed.

(** A slice with step 0 selects nothing and raises; any other slice
    selects distinct positions of the sequence, in the direction of its
    step. *)
Lemma slice_range_zero (s : slice) (len : Z) :
  step s = Some 0 ->
  slice_range s len = Raise (Exn ValueError "slice step cannot be zero").
Proof. unfold slice_range, slice_indices. by intros ->. Qed.

Lemma slice_range_Ok (s : slice) (n : nat) :
  step s <> Some 0 ->
  exists sel, slice_range s (Z.of_nat n) = Ok sel /\
    Forall (fun i => 0 <= i < Z.of_nat n) sel /\ NoDup sel /\
    (0 < default 1 (step s) -> ascending sel) /\
    (default 1 (step s) < 0 -> descending sel).
Proof.
  intros Hstep. unfold slice_range, slice_indices.
  set (st := default 1 (step s)).
  assert (st <> 0) as Hst.
  { subst st. destruct (step s) as [z|]; simpl; [|lia]. congruence. }
  destruct (Z.eqb_spec st 0) as [|_]; [done|].
  set (lower := if st <? 0 then -1 else 0).
  set (upper := if st <? 0 then Z.of_nat n - 1 else Z.of_nat n).
  set (lo := clip _ _ _ _ (start s)). set (hi := clip _ _ _ _ (stop s)).
  assert (lower <= lo <= upper /\ lower <= hi <= upper) as [Hlo Hhi].
  { subst lo hi lower upper.
    split; apply clip_bounds; destruct (Z.ltb_spec st 0); lia. }
  destruct (range lo hi st) as [sel|e] eqn:Hr.
  - exists sel. split; [done|]. split; [|split; [|split]].
    + apply Forall_forall. intros x Hx.
      destruct (range_bounds _ _ _ _ _ Hr Hx) as [[Hpos Hb]|[Hneg Hb]];
        subst lower upper; destruct (Z.ltb_spec st 0); lia.
    + by eapply range_NoDup.
    + by eapply range_ascending.
    + by eapply range_descending.
  - unfold range in Hr. by destruct (Z.eqb_spec st 0).
Qed.

(** [l.index(x)] finds [x] where it occurs first. *)
Lemma first_index_first (l : list string) (x : string) (j : nat) :
  l !! j = Some x ->
  (forall j', (j' < j)%nat -> l !! j' <> Some x) ->
  first_index l x = Some j.
Proof.
  revert j. induction l as [|y l IH]; intros j Hj Hmin; [done|]. simpl.
  destruct (decide (y = x)) as [->|Hne].
  - destruct j as [|j]; [done|]. exfalso. apply (Hmin 0%nat); [lia|done].
  - destruct j as [|j]; [simpl in Hj; congruence|].
    rewrite (IH j); [done|done|]. intros j' Hj'. apply (Hmin (S j')). lia.
Qed.

End PyFacts.

(** ** One access by integer index *)

Section Collection.
Context {Item W : Type} (get_item : string -> W -> result (value Item) * W).
Import IdentifierListAsItems.

Local Abbreviation state := (state Item W).
Local Abbreviation resolve := (resolve get_item).
Local Abbreviation __getitem__ := (__getitem__ get_item).
Local Abbreviation __getattr__ := (__getattr__ get_item).
Local Abbreviation invoke := (invoke get_item).
Local Abbreviation invoke_all := (invoke_all get_item).

Implicit Types (s : state) (i : Z) (j : nat) (k name : string).

Local Ltac unfold_M :=
  unfold mbind, mret, M_bind, M_ret, eval, session_get_item, store_item.

(** The loop body at a slot that is already set: nothing happens. *)
Lemma resolve_cached s i j o :
  norm_index (length (_items (self s))) i = Some j ->
  _items (self s) !! j = Some (PyObj o) ->
  resolve i s = (Ok tt, s).
Proof.
  intros Hi Hj. unfold IdentifierListAsItems.resolve. unfold_M.
  unfold list_getitem. by rewrite Hi, Hj.
Qed.

(** The loop body at an unset slot: the session is asked for the
    identifier of the slot; what it returns is stored, what it raises is
    raised. *)
Lemma resolve_fetch s i j k :
  inv (self s) ->
  norm_index (length (_items (self s))) i = Some j ->
  _items (self s) !! j = Some PyNone ->
  ids (self s) !! j = Some k ->
  resolve i s =
    let (r, w') := get_item k (session s) in
    let tr := trace s ++ [Call k r] in
    match r with
    | Ok x => (Ok tt, State (Build (ids (self s)) (<[j := x]> (_items (self s)))) w' tr)
    | Raise e => (Raise e, State (self s) w' tr)
    end.
Proof.
  intros Hinv Hi Hj Hk. unfold IdentifierListAsItems.resolve. unfold_M.
  unfold list_getitem, list_setitem. rewrite Hi, Hj. simpl.
  rewrite Hinv, Hi, Hk.
  destruct (get_item k (session s)) as [[x|e] w']; simpl; [|done].
  by rewrite Hi.
Qed.

(** An index outside [-n, n): IndexError, before anything else happens. *)
Lemma resolve_out_of_range s i :
  norm_index (length (_items (self s))) i = None ->
  resolve i s = (Raise (Exn IndexError "list index out of range"), s).
Proof.
  intros Hi. unfold IdentifierListAsItems.resolve. unfold_M.
  unfold list_getitem. by rewrite Hi.
Qed.

Lemma getitem_int_unfold s i :
  __getitem__ (Int i) s =
    match resolve i s with
    | (Ok _, s') =>
        match list_getitem (_items (self s')) i with
        | Ok v => (Ok (One v), s')
        | Raise e => (Raise e, s')
        end
    | (Raise e, s') => (Raise e, s')
    end.
Proof.
  unfold IdentifierListAsItems.__getitem__. unfold_M. simpl. unfold_M.
  destruct (resolve i s) as [[[]|e] s']; [|done].
  by destruct (list_getitem _ i).
Qed.

Lemma getitem_int_cached s i j o :
  norm_index (length (_items (self s))) i = Some j ->
  _items (self s) !! j = Some (PyObj o) ->
  __getitem__ (Int i) s = (Ok (One (PyObj o)), s).
Proof.
  intros Hi Hj. rewrite getitem_int_unfold, (resolve_cached _ _ _ _ Hi Hj).
  unfold list_getitem. by rewrite Hi, Hj.
Qed.

Lemma getitem_int_fetch s i j k :
  inv (self s) ->
  norm_index (length (_items (self s))) i = Some j ->
  _items (self s) !! j = Some PyNone ->
  ids (self s) !! j = Some k ->
  __getitem__ (Int i) s =
    let (r, w') := get_item k (session s) in
    let tr := trace s ++ [Call k r] in
    match r with
    | Ok x => (Ok (One x), State (Build (ids (self s)) (<[j := x]> (_items (self s)))) w' tr)
    | Raise e => (Raise e, State (self s) w' tr)
    end.
Proof.
  intros Hinv Hi Hj Hk.
  rewrite getitem_int_unfold, (resolve_fetch _ _ _ _ Hinv Hi Hj Hk).
  destruct (get_item k (session s)) as [[x|e] w']; simpl; [|done].
  unfold list_getitem. rewrite length_insert, Hi.
  apply norm_index_Some in Hi as (Hlt & _).
  by rewrite list_lookup_insert_eq.
Qed.

Lemma getitem_int_out_of_range s i :
  norm_index (length (_items (self s))) i = None ->
  __getitem__ (Int i) s = (Raise (Exn IndexError "list index out of range"), s).
Proof.
  intros Hi. by rewrite getitem_int_unfold, (resolve_out_of_range _ _ Hi).
Qed.

(** After a first access that returned an object, any index naming the
    same slot finds the object there: the session is not asked again. *)
Lemma getitem_same_slot s a b j o s1 :
  inv (self s) ->
  norm_index (length (_items (self s))) a = Some j ->
  norm_index (length (_items (self s))) b = Some j ->
  __getitem__ (Int a) s = (Ok (One (PyObj o)), s1) ->
  __getitem__ (Int b) s1 = (Ok (One (PyObj o)), s1) /\
  ids (self s1) = ids (self s) /\
  (trace s1 = trace s \/
   exists k, ids (self s) !! j = Some k /\
             trace s1 = trace s ++ [Call k (Ok (PyObj o))]).
Proof.
  intros Hinv Ha Hb Hget.
  pose proof (norm_index_Some _ _ _ Ha) as (Hlt & _).
  destruct (lookup_lt_is_Some_2 (_items (self s)) j Hlt) as [v Hv].
  destruct v as [|o'].
  - assert (j < length (ids (self s)))%nat as Hlt' by (by rewrite Hinv).
    destruct (lookup_lt_is_Some_2 (ids (self s)) j Hlt') as [k Hk].
    rewrite (getitem_int_fetch _ _ _ _ Hinv Ha Hv Hk) in Hget.
    destruct (get_item k (session s)) as [[x|e] w']; simpl in Hget; [|done].
    injection Hget as -> <-. split; [|split; [done|right; eauto]].
    apply (getitem_int_cached _ b j); simpl.
    + by rewrite length_insert.
    + by apply list_lookup_insert_eq.
  - rewrite (getitem_int_cached _ _ _ _ Ha Hv) in Hget.
    injection Hget as <- <-. split; [|split; [done|by left]].
    by apply (getitem_int_cached _ b j).
Qed.

(** Two indices that name the same slot are the same access. *)
Lemma getitem_int_norm_eq s a b j :
  inv (self s) ->
  norm_index (length (_items (self s))) a = Some j ->
  norm_index (length (_items (self s))) b = Some j ->
  __getitem__ (Int a) s = __getitem__ (Int b) s.
Proof.
  intros Hinv Ha Hb.
  pose proof (norm_index_Some _ _ _ Ha) as (Hlt & _).
  destruct (lookup_lt_is_Some_2 (_items (self s)) j Hlt) as [v Hv].
  destruct v as [|o'].
  - assert (j < length (ids (self s)))%nat as Hlt' by (by rewrite Hinv).
    destruct (lookup_lt_is_Some_2 (ids (self s)) j Hlt') as [k Hk].
    by rewrite (getitem_int_fetch _ _ _ _ Hinv Ha Hv Hk),
               (getitem_int_fetch _ _ _ _ Hinv Hb Hv Hk).
  - by rewrite (getitem_int_cached _ _ _ _ Ha Hv),
               (getitem_int_cached _ _ _ _ Hb Hv).
Qed.

(** C1 (as amended).  For every collection and every integer index [i]:
    when [get(i)] returns an object other than [None], a second [get(i)]
    returns the identical object and leaves the state, and so the calls
    the session received, as the first left them; over both accesses the
    resolver is invoked at most once, and then for the identifier of
    slot [i]. *)
Theorem getitem_twice_memoized s i o s1 :
  inv (self s) ->
  __getitem__ (Int i) s = (Ok (One (PyObj o)), s1) ->
  __getitem__ (Int i) s1 = (Ok (One (PyObj o)), s1) /\
  (trace s1 = trace s \/
   exists k, list_getitem (ids (self s)) i = Ok k /\
             trace s1 = trace s ++ [Call k (Ok (PyObj o))]).
Proof.
  intros Hinv Hget.
  destruct (norm_index (length (_items (self s))) i) as [j|] eqn:Hi.
  - destruct (getitem_same_slot _ _ _ _ _ _ Hinv Hi Hi Hget) as (H2 & _ & Htr).
    split; [done|]. destruct Htr as [?|(k & Hk & ?)]; [by left|right].
    exists k. split; [|done]. unfold list_getitem. by rewrite Hinv, Hi, Hk.
  - by rewrite (getitem_int_out_of_range _ _ Hi) in Hget.
Qed.

(** C6.  For a collection of length [n]: an integer index outside
    [-n, n) makes [get] raise IndexError without invoking the resolver or
    changing anything; an index [i] inside [-n, n) names slot [i] if
    [i >= 0] and slot [n + i] if [i < 0], and [get(i)] returns what the
    slot holds, or what the resolver returns for the identifier of the
    slot if the slot is unset (and raises only what the resolver
    raises). *)
Theorem getitem_index_range s i :
  inv (self s) ->
  let n := Z.of_nat (length (ids (self s))) in
  (i < - n \/ n <= i ->
   __getitem__ (Int i) s = (Raise (Exn IndexError "list index out of range"), s)) /\
  (- n <= i < n ->
   exists j k v,
     Z.of_nat j = (if i <? 0 then n + i else i) /\
     ids (self s) !! j = Some k /\ _items (self s) !! j = Some v /\
     __getitem__ (Int i) s =
       if is_None v then
         let (r, w') := get_item k (session s) in
         let tr := trace s ++ [Call k r] in
         match r with
         | Ok x => (Ok (One x), State (Build (ids (self s)) (<[j := x]> (_items (self s)))) w' tr)
         | Raise e => (Raise e, State (self s) w' tr)
         end
       else (Ok (One v), s)).
Proof.
  intros Hinv n. subst n. rewrite Hinv. split.
  - intros Hi. apply getitem_int_out_of_range. by apply norm_index_None.
  - intros Hi. destruct (norm_index_in_range _ _ Hi) as [j Hj].
    pose proof (norm_index_Some _ _ _ Hj) as (Hlt & _ & Hnorm).
    destruct (lookup_lt_is_Some_2 (_items (self s)) j Hlt) as [v Hv].
    assert (j < length (ids (self s)))%nat as Hlt' by (by rewrite Hinv).
    destruct (lookup_lt_is_Some_2 (ids (self s)) j Hlt') as [k Hk].
    exists j, k, v. split; [|split; [done|split; [done|]]].
    + rewrite Hnorm, Hinv. destruct (i <? 0); lia.
    + destruct v as [|o]; simpl.
      * by apply getitem_int_fetch.
      * by apply (getitem_int_cached _ _ j).
Qed.

(** C10 (as amended).  For a collection of length [n] and [1 <= k <= n],
    [get(-k)] and [get(n-k)] are the same access, with the same outcome
    and the same effect in every state; when the first of the two, in
    either order, returns an object other than [None], the second returns
    the identical object without invoking the resolver, which is thus
    invoked at most once in total. *)
Theorem getitem_negative_index s (k : Z) :
  inv (self s) ->
  let n := Z.of_nat (length (ids (self s))) in
  1 <= k <= n ->
  __getitem__ (Int (- k)) s = __getitem__ (Int (n - k)) s /\
  forall a b o s1,
    (a = - k /\ b = n - k) \/ (a = n - k /\ b = - k) ->
    __getitem__ (Int a) s = (Ok (One (PyObj o)), s1) ->
    __getitem__ (Int b) s1 = (Ok (One (PyObj o)), s1) /\
    (trace s1 = trace s \/ exists c, trace s1 = trace s ++ [c]).
Proof.
  intros Hinv n Hk. subst n. rewrite Hinv in *.
  destruct (norm_index_neg _ _ Hk) as [Hneg Hpos]. split.
  - by eapply getitem_int_norm_eq.
  - intros a b o s1 Hab Hget. rewrite ?Hinv in Hab.
    assert (norm_index (length (_items (self s))) a = Some (Z.to_nat (Z.of_nat (length (_items (self s))) - k)) /\
            norm_index (length (_items (self s))) b = Some (Z.to_nat (Z.of_nat (length (_items (self s))) - k)))
      as [Ha Hb] by (destruct Hab as [[-> ->]|[-> ->]]; done).
    destruct (getitem_same_slot _ _ _ _ _ _ Hinv Ha Hb Hget) as (H2 & _ & Htr).
    split; [done|]. destruct Htr as [?|(c & _ & ?)]; [by left|right; eauto].
Qed.

(** ** Access by identifier *)

Lemma getattr_unfold s name :
  __getattr__ name s =
    match first_index (ids (self s)) name with
    | Some j =>
        match __getitem__ (Int (Z.of_nat j)) s with
        | (Raise e, s') =>
            if is_ValueError e then (Raise (Exn AttributeError ""), s')
            else (Raise e, s')
        | r => r
        end
    | None => (Raise (Exn AttributeError ""), s)
    end.
Proof.
  unfold IdentifierListAsItems.__getattr__. unfold_M. unfold list_index.
  by destruct (first_index (ids (self s)) name).
Qed.

Lemma first_index_norm (l : list string) name j (n : nat) :
  first_index l name = Some j -> length l = n ->
  norm_index n (Z.of_nat j) = Some j /\ l !! j = Some name.
Proof.
  intros Hj <-. apply first_index_Some in Hj as [Hj _]. split; [|done].
  apply norm_index_nonneg. by eapply lookup_lt_Some.
Qed.

(** What a failing resolver leaves behind: [get] raises what the
    resolver raised and the object is as before, so the slot is still
    unset and the next access asks the session again. *)
Lemma getitem_resolver_raises s i j k e w' :
  inv (self s) ->
  norm_index (length (_items (self s))) i = Some j ->
  _items (self s) !! j = Some PyNone ->
  ids (self s) !! j = Some k ->
  get_item k (session s) = (Raise e, w') ->
  __getitem__ (Int i) s =
    (Raise e, State (self s) w' (trace s ++ [Call k (Raise e)])).
Proof.
  intros Hinv Hi Hj Hk He.
  by rewrite (getitem_int_fetch _ _ _ _ Hinv Hi Hj Hk), He.
Qed.

(** The same through [__getattr__]: the object is as before, but a
    [ValueError] of the resolver reaches the caller as an
    [AttributeError]. *)
Lemma getattr_resolver_raises s name j e w' :
  inv (self s) ->
  first_index (ids (self s)) name = Some j ->
  _items (self s) !! j = Some PyNone ->
  get_item name (session s) = (Raise e, w') ->
  __getattr__ name s =
    (Raise (if is_ValueError e then Exn AttributeError "" else e),
     State (self s) w' (trace s ++ [Call name (Raise e)])).
Proof.
  intros Hinv Hfi Hj He. rewrite getattr_unfold, Hfi.
  destruct (first_index_norm _ _ _ _ Hfi Hinv) as [Hn Hk].
  rewrite (getitem_resolver_raises _ _ _ _ _ _ Hinv Hn Hj Hk He).
  by destruct (is_ValueError e).
Qed.

(** C4 (as amended).  For every collection: [get_by_name(name)] with
    [name] absent from the keys raises AttributeError without invoking
    the resolver or changing anything; with [name] present, first at
    position [j], it is exactly [get(j)], outcome and effect, whenever
    [get(j)] does not raise a [ValueError]; and when it returns an object
    other than [None], calling it again returns the identical object
    without invoking the resolver, which is thus invoked at most once
    over the two calls. *)
Theorem getattr_as_getitem s name :
  inv (self s) ->
  (name ∉ ids (self s) ->
   __getattr__ name s = (Raise (Exn AttributeError ""), s)) /\
  (name ∈ ids (self s) ->
   exists j,
     first_index (ids (self s)) name = Some j /\
     ids (self s) !! j = Some name /\
     ((forall e, fst (__getitem__ (Int (Z.of_nat j)) s) = Raise e ->
                 is_ValueError e = false) ->
      __getattr__ name s = __getitem__ (Int (Z.of_nat j)) s) /\
     (forall o s1,
        __getattr__ name s = (Ok (One (PyObj o)), s1) ->
        __getattr__ name s1 = (Ok (One (PyObj o)), s1) /\
        (trace s1 = trace s \/
         trace s1 = trace s ++ [Call name (Ok (PyObj o))]))).
Proof.
  intros Hinv. split.
  - intros Habs. apply first_index_None in Habs.
    by rewrite getattr_unfold, Habs.
  - intros Hin. destruct (first_index (ids (self s)) name) as [j|] eqn:Hfi.
    2: { by apply first_index_None in Hfi. }
    destruct (first_index_norm _ _ _ _ Hfi Hinv) as [Hn Hk].
    exists j. split; [done|]. split; [done|]. split.
    + intros Hnv. rewrite getattr_unfold, Hfi.
      destruct (__getitem__ (Int (Z.of_nat j)) s) as [[r|e] s'] eqn:Hget; [done|].
      by rewrite (Hnv e eq_refl).
    + intros o s1 Hget. rewrite getattr_unfold, Hfi in Hget.
      destruct (__getitem__ (Int (Z.of_nat j)) s) as [[r|e] s'] eqn:Hget'.
      2: { by destruct (is_ValueError e). }
      injection Hget as -> ->.
      destruct (getitem_same_slot _ _ _ _ _ _ Hinv Hn Hn Hget')
        as (H2 & Hids & Htr).
      split.
      * by rewrite getattr_unfold, Hids, Hfi, H2.
      * destruct Htr as [?|(k & Hk' & ?)]; [by left|right]. congruence.
Qed.

(** C9.  When [name] occurs in the keys, possibly at several positions,
    and [j] is the lowest of them: the lookup of [name] in the keys finds
    position [j], and [get_by_name(name)] works on slot [j] alone.  It
    returns what slot [j] holds afterwards, every other slot, so every
    later duplicate, is left as it was (unset if it was unset), and the
    resolver is invoked at most once, for [name]; it returns the
    memoized object if slot [j] is set, and what the resolver returns,
    stored in slot [j], if it is not. *)
Theorem getattr_first_occurrence s name j :
  inv (self s) ->
  ids (self s) !! j = Some name ->
  (forall j', (j' < j)%nat -> ids (self s) !! j' <> Some name) ->
  first_index (ids (self s)) name = Some j /\
  (forall r s',
     __getattr__ name s = (r, s') ->
     ids (self s') = ids (self s) /\
     (forall j', j' <> j -> _items (self s') !! j' = _items (self s) !! j') /\
     (forall v, r = Ok v -> exists x, v = One x /\ _items (self s') !! j = Some x) /\
     (trace s' = trace s \/ exists ret, trace s' = trace s ++ [Call name ret])) /\
  (forall o,
     _items (self s) !! j = Some (PyObj o) ->
     __getattr__ name s = (Ok (One (PyObj o)), s)) /\
  (forall x w',
     _items (self s) !! j = Some PyNone ->
     get_item name (session s) = (Ok x, w') ->
     __getattr__ name s =
       (Ok (One x),
        State (Build (ids (self s)) (<[j := x]> (_items (self s)))) w'
              (trace s ++ [Call name (Ok x)]))).
Proof.
  intros Hinv Hj Hmin.
  pose proof (first_index_first _ _ _ Hj Hmin) as Hfi.
  destruct (first_index_norm _ _ _ _ Hfi Hinv) as [Hn Hk].
  pose proof (norm_index_Some _ _ _ Hn) as (Hlt & _).
  split; [done|]. split; [|split].
  - intros r s' Hget. rewrite getattr_unfold, Hfi in Hget.
    destruct (lookup_lt_is_Some_2 (_items (self s)) j Hlt) as [[|o] Hv].
    + rewrite (getitem_int_fetch _ _ _ _ Hinv Hn Hv Hk) in Hget.
      destruct (get_item name (session s)) as [[x|e] w']; simpl in Hget.
      * injection Hget as <- <-. simpl. split; [done|]. split; [|split].
        -- intros j' Hne. by apply list_lookup_insert_ne.
        -- intros v [= <-]. exists x. split; [done|].
           by apply list_lookup_insert_eq.
        -- right. eauto.
      * assert (s' = State (self s) w' (trace s ++ [Call name (Raise e)])) as ->.
        { by destruct (is_ValueError e); injection Hget as _ <-. }
        simpl. split; [done|]. split; [done|]. split; [|right; eauto].
        intros v ->. by destruct (is_ValueError e).
    + rewrite (getitem_int_cached _ _ _ _ Hn Hv) in Hget.
      injection Hget as <- <-. split; [done|]. split; [done|].
      split; [|by left]. intros v [= <-]. eauto.
  - intros o Hv.
    by rewrite getattr_unfold, Hfi, (getitem_int_cached _ _ _ _ Hn Hv).
  - intros x w' Hv Hx.
    by rewrite getattr_unfold, Hfi, (getitem_int_fetch _ _ _ _ Hinv Hn Hv Hk), Hx.
Qed.

(** ** What no method changes *)

Lemma resolve_frame s i r s' :
  inv (self s) -> resolve i s = (r, s') ->
  inv (self s') /\ ids (self s') = ids (self s) /\
  forall j o, _items (self s) !! j = Some (PyObj o) ->
              _items (self s') !! j = Some (PyObj o).
Proof.
  intros Hinv Hres.
  destruct (norm_index (length (_items (self s))) i) as [j|] eqn:Hi.
  2: { rewrite (resolve_out_of_range _ _ Hi) in Hres. by injection Hres as _ <-. }
  pose proof (norm_index_Some _ _ _ Hi) as (Hlt & _).
  destruct (lookup_lt_is_Some_2 (_items (self s)) j Hlt) as [[|o] Hv].
  - assert (j < length (ids (self s)))%nat as Hlt' by (by rewrite Hinv).
    destruct (lookup_lt_is_Some_2 (ids (self s)) j Hlt') as [k Hk].
    rewrite (resolve_fetch _ _ _ _ Hinv Hi Hv Hk) in Hres.
    destruct (get_item k (session s)) as [[x|e] w']; simpl in Hres;
      injection Hres as _ <-; simpl; [|done].
    split; [|split; [done|]].
    + unfold inv. simpl. by rewrite length_insert.
    + intros j' o Hj'. rewrite list_lookup_insert_ne; [done|]. congruence.
  - rewrite (resolve_cached _ _ _ _ Hi Hv) in Hres. by injection Hres as _ <-.
Qed.

Lemma for_each_frame (sel : list Z) s r s' :
  inv (self s) -> for_each sel resolve s = (r, s') ->
  inv (self s') /\ ids (self s') = ids (self s) /\
  forall j o, _items (self s) !! j = Some (PyObj o) ->
              _items (self s') !! j = Some (PyObj o).
Proof.
  revert s. induction sel as [|i sel IH]; intros s Hinv; simpl.
  - unfold_M. by intros [= _ <-].
  - unfold_M. destruct (resolve i s) as [[[]|e] s1] eqn:Hres;
      destruct (resolve_frame _ _ _ _ Hinv Hres) as (Hinv1 & Hids1 & Hkeep1).
    + intros Hrest. destruct (IH _ Hinv1 Hrest) as (Hinv' & Hids' & Hkeep').
      split; [done|]. split; [congruence|]. eauto.
    + by intros [= _ <-].
Qed.

Lemma getitem_slice_unfold s sl :
  __getitem__ (Slc sl) s =
    match slice_range sl (__len__ (self s)) with
    | Ok sel =>
        match for_each sel resolve s with
        | (Ok _, s') =>
            match list_getslice (_items (self s')) sl with
            | Ok l => (Ok (Many l), s')
            | Raise e => (Raise e, s')
            end
        | (Raise e, s') => (Raise e, s')
        end
    | Raise e => (Raise e, s)
    end.
Proof.
  unfold IdentifierListAsItems.__getitem__. unfold_M.
  destruct (slice_range sl _) as [sel|e]; [|done].
  destruct (for_each sel resolve s) as [[[]|e] s']; [|done].
  by destruct (list_getslice _ sl).
Qed.

Lemma getitem_frame idx s r s' :
  inv (self s) -> __getitem__ idx s = (r, s') ->
  inv (self s') /\ ids (self s') = ids (self s) /\
  forall j o, _items (self s) !! j = Some (PyObj o) ->
              _items (self s') !! j = Some (PyObj o).
Proof.
  intros Hinv. destruct idx as [i|sl].
  - rewrite getitem_int_unfold.
    destruct (resolve i s) as [[[]|e] s1] eqn:Hres;
      pose proof (resolve_frame _ _ _ _ Hinv Hres) as Hfr.
    + by destruct (list_getitem _ i); intros [= _ <-].
    + by intros [= _ <-].
  - rewrite getitem_slice_unfold.
    destruct (slice_range sl _) as [sel|e]; [|by intros [= _ <-]].
    destruct (for_each sel resolve s) as [[[]|e] s1] eqn:Hloop;
      pose proof (for_each_frame _ _ _ _ Hinv Hloop) as Hfr.
    + by destruct (list_getslice _ sl); intros [= _ <-].
    + by intros [= _ <-].
Qed.

Lemma getattr_frame name s r s' :
  inv (self s) -> __getattr__ name s = (r, s') ->
  inv (self s') /\ ids (self s') = ids (self s) /\
  forall j o, _items (self s) !! j = Some (PyObj o) ->
              _items (self s') !! j = Some (PyObj o).
Proof.
  intros Hinv. rewrite getattr_unfold.
  destruct (first_index _ name) as [j|]; [|by intros [= _ <-]].
  destruct (__getitem__ (Int (Z.of_nat j)) s) as [[v|e] s1] eqn:Hget;
    pose proof (getitem_frame _ _ _ _ Hinv Hget) as Hfr.
  - by intros [= _ <-].
  - by destruct (is_ValueError e); intros [= _ <-].
Qed.

Lemma invoke_frame m s r s' :
  inv (self s) -> invoke m s = (r, s') ->
  inv (self s') /\ ids (self s') = ids (self s) /\
  forall j o, _items (self s) !! j = Some (PyObj o) ->
              _items (self s') !! j = Some (PyObj o).
Proof.
  intros Hinv. destruct m as [|idx|name]; simpl; unfold_M.
  - by intros [= _ <-].
  - destruct (__getitem__ idx s) as [[v|e] s1] eqn:Hget;
      pose proof (getitem_frame _ _ _ _ Hinv Hget); by intros [= _ <-].
  - destruct (__getattr__ name s) as [[v|e] s1] eqn:Hget;
      pose proof (getattr_frame _ _ _ _ Hinv Hget); by intros [= _ <-].
Qed.

Lemma invoke_all_frame (ms : list (method)) s :
  inv (self s) ->
  inv (self (snd (invoke_all ms s))) /\
  ids (self (snd (invoke_all ms s))) = ids (self s).
Proof.
  revert s. induction ms as [|m ms IH]; intros s Hinv; simpl; [done|].
  destruct (invoke m s) as [r s1] eqn:Hm.
  destruct (invoke_frame _ _ _ _ Hinv Hm) as (Hinv1 & Hids1 & _).
  destruct (invoke_all ms s1) as [rs s2] eqn:Hms. simpl.
  destruct (IH _ Hinv1) as [Hinv2 Hids2]. rewrite Hms in Hinv2, Hids2.
  split; [done|]. simpl in Hids2. congruence.
Qed.

Lemma init_inv (a : id_arg) : inv (__init__ (Item := Item) a).
Proof. unfold inv. simpl. by rewrite length_replicate. Qed.

(** C7.  The constructor establishes [len(ids) == len(_items)] with
    every slot unset; every method invoked in a state where the lengths
    agree, by integer, by slice or by name, returning or raising, leaves
    them agreeing, leaves [ids], hence the length, as it was, and leaves
    every slot that holds an object holding that object; so after any
    sequence of calls the lengths agree and [len] is the number of keys
    given to the constructor. *)
Theorem invariant_preserved :
  (forall a,
     inv (__init__ (Item := Item) a) /\
     ids (__init__ (Item := Item) a)
       = match a with IdList l => l | SingleId k => [k] end /\
     Forall (fun v => v = PyNone) (_items (__init__ (Item := Item) a))) /\
  (forall m s r s',
     inv (self s) -> invoke m s = (r, s') ->
     inv (self s') /\ ids (self s') = ids (self s) /\
     __len__ (self s') = __len__ (self s) /\
     forall j o, _items (self s) !! j = Some (PyObj o) ->
                 _items (self s') !! j = Some (PyObj o)) /\
  (forall a w ms,
     let s' := snd (invoke_all ms (new a w)) in
     inv (self s') /\
     __len__ (self s')
       = Z.of_nat (length (match a with IdList l => l | SingleId k => [k] end))).
Proof.
  split; [|split].
  - intros a. split; [apply init_inv|]. split; [done|].
    simpl. apply Forall_replicate. done.
  - intros m s r s' Hinv Hm.
    destruct (invoke_frame _ _ _ _ Hinv Hm) as (Hinv' & Hids & Hkeep).
    split; [done|]. split; [done|]. split; [|done].
    unfold __len__. by rewrite Hids.
  - intros a w ms s'. subst s'.
    destruct (invoke_all_frame ms (new a w) (init_inv a)) as [Hinv Hids].
    split; [done|]. unfold __len__. by rewrite Hids.
Qed.

(** C8.  Constructed from the bare identifier [k], for instance "foo",
    the object is the one constructed from the one-element list [[k]],
    and any sequence of [len], [get] and [get_by_name] calls has the same
    outcomes and leaves the same state on both. *)
Theorem single_id_as_list (k : string) (w : W) (ms : list method) :
  __init__ (Item := Item) (SingleId k) = __init__ (IdList [k]) /\
  invoke_all ms (new (SingleId k) w) = invoke_all ms (new (IdList [k]) w).
Proof. split; reflexivity. Qed.

(** ** Access by slice *)

Lemma norm_index_pos (n : nat) i :
  0 <= i < Z.of_nat n -> norm_index n i = Some (Z.to_nat i).
Proof.
  intros Hi. rewrite <- (Z2Nat.id i) at 1 by lia.
  apply norm_index_nonneg. lia.
Qed.

Lemma getitems_in_range {A} (l : list A) (sel : list Z) :
  Forall (fun i => 0 <= i < Z.of_nat (length l)) sel ->
  exists xs, getitems l sel = Ok xs /\
             Some <$> xs = (fun i => l !! Z.to_nat i) <$> sel.
Proof.
  induction 1 as [|i sel Hi _ (xs & Hxs & Hmap)]; simpl.
  - by exists [].
  - destruct (list_getitem_norm l i _ (norm_index_pos _ _ Hi)) as (x & Hx & ->).
    rewrite Hxs. exists (x :: xs). split; [done|].
    rewrite !fmap_cons. by rewrite Hmap, Hx.
Qed.

(** One successful turn of the loop at a position inside the list. *)
Lemma resolve_step_Ok s i s' :
  inv (self s) ->
  0 <= i < Z.of_nat (length (_items (self s))) ->
  resolve i s = (Ok tt, s') ->
  (unset (_items (self s)) i = false /\ s' = s) \/
  (unset (_items (self s)) i = true /\
   exists k x w',
     ids (self s) !! Z.to_nat i = Some k /\
     get_item k (session s) = (Ok x, w') /\
     s' = State (Build (ids (self s)) (<[Z.to_nat i := x]> (_items (self s))))
                w' (trace s ++ [Call k (Ok x)])).
Proof.
  intros Hinv Hi Hres. pose proof (norm_index_pos _ _ Hi) as Hn.
  pose proof (norm_index_Some _ _ _ Hn) as (Hlt & _).
  destruct (lookup_lt_is_Some_2 (_items (self s)) _ Hlt) as [[|o] Hv].
  - right. unfold unset. rewrite Hv. split; [done|].
    assert (Z.to_nat i < length (ids (self s)))%nat as Hlt' by (by rewrite Hinv).
    destruct (lookup_lt_is_Some_2 (ids (self s)) _ Hlt') as [k Hk].
    rewrite (resolve_fetch _ _ _ _ Hinv Hn Hv Hk) in Hres.
    destruct (get_item k (session s)) as [[x|e] w'] eqn:Hget; simpl in Hres; [|done].
    injection Hres as <-. by exists k, x, w'.
  - left. unfold unset. rewrite Hv. split; [done|].
    rewrite (resolve_cached _ _ _ _ Hn Hv) in Hres. by injection Hres.
Qed.

(** The whole loop over distinct positions inside the list, when no
    call of the resolver raises: the slots not visited are as before; the
    session was asked once for each visited slot that was unset, in the
    order of the visit, and what it returned is in the slot. *)
Lemma for_each_resolve_Ok (sel : list Z) s s' :
  inv (self s) ->
  Forall (fun i => 0 <= i < Z.of_nat (length (_items (self s)))) sel ->
  NoDup sel ->
  for_each sel resolve s = (Ok tt, s') ->
  (forall j, Z.of_nat j ∉ sel -> _items (self s') !! j = _items (self s) !! j) /\
  exists calls,
    trace s' = trace s ++ calls /\
    Forall2 (fun i c =>
               ids (self s) !! Z.to_nat i = Some (call_key c) /\
               exists x, call_ret c = Ok x /\
                         _items (self s') !! Z.to_nat i = Some x)
            (List.filter (unset (_items (self s))) sel) calls.
Proof.
  revert s. induction sel as [|i sel IH]; intros s Hinv Hsel Hnd; simpl.
  - unfold_M. intros [= <-]. split; [done|]. exists []. split; [|constructor].
    by rewrite app_nil_r.
  - apply Forall_cons in Hsel as [Hi Hsel]. apply NoDup_cons in Hnd as [Hni Hnd].
    unfold_M. destruct (resolve i s) as [[[]|e] s1] eqn:Hres; [|done].
    intros Hrest.
    destruct (resolve_step_Ok _ _ _ Hinv Hi Hres)
      as [[Hset ->]|(Hunset & k & x & w' & Hk & Hget & ->)].
    + rewrite Hset. destruct (IH _ Hinv Hsel Hnd Hrest) as [Hout Hcalls].
      split; [|done]. intros j Hj. apply Hout.
      by apply not_elem_of_cons in Hj as [_ Hj].
    + rewrite Hunset.
      assert (inv (Build (ids (self s)) (<[Z.to_nat i := x]> (_items (self s)))))
        as Hinv1 by (unfold inv; simpl; by rewrite length_insert).
      destruct (IH (State (Build (ids (self s))
                                 (<[Z.to_nat i := x]> (_items (self s))))
                          w' (trace s ++ [Call k (Ok x)])) Hinv1)
        with (2 := Hnd) (3 := Hrest)
        as (Hout & calls & Htr & Hcalls); simpl in *.
      { by rewrite length_insert. }
      assert (_items (self s') !! Z.to_nat i = Some x) as Hx.
      { rewrite Hout by (by rewrite Z2Nat.id by lia).
        apply list_lookup_insert_eq. lia. }
      split.
      * intros j Hj. apply not_elem_of_cons in Hj as [Hji Hj].
        rewrite (Hout _ Hj). apply list_lookup_insert_ne. lia.
      * exists (Call k (Ok x) :: calls). split.
        { by rewrite Htr, <- app_assoc. }
        constructor; [eauto|].
        erewrite List.filter_ext_in; [exact Hcalls|].
        intros i' Hi'. apply list_elem_of_In in Hi'. unfold unset.
        rewrite list_lookup_insert_ne; [done|].
        pose proof (proj1 (Forall_forall _ _) Hsel _ Hi') as Hb. simpl in Hb.
        intros Heq. apply Hni. replace i with i' by lia. done.
Qed.

(** When the resolver never raises, neither does the loop. *)
Lemma for_each_resolve_total (sel : list Z) s :
  (forall k w, is_Ok (fst (get_item k w)) = true) ->
  inv (self s) ->
  Forall (fun i => 0 <= i < Z.of_nat (length (_items (self s)))) sel ->
  exists s', for_each sel resolve s = (Ok tt, s').
Proof.
  intros Htot. revert s. induction sel as [|i sel IH]; intros s Hinv Hsel; simpl.
  - by exists s.
  - apply Forall_cons in Hsel as [Hi Hsel]. unfold_M.
    pose proof (norm_index_pos _ _ Hi) as Hn.
    pose proof (norm_index_Some _ _ _ Hn) as (Hlt & _).
    assert (exists s1, resolve i s = (Ok tt, s1)) as [s1 Hres].
    { destruct (lookup_lt_is_Some_2 (_items (self s)) _ Hlt) as [[|o] Hv].
      - assert (Z.to_nat i < length (ids (self s)))%nat as Hlt' by (by rewrite Hinv).
        destruct (lookup_lt_is_Some_2 (ids (self s)) _ Hlt') as [k Hk].
        rewrite (resolve_fetch _ _ _ _ Hinv Hn Hv Hk).
        specialize (Htot k (session s)).
        destruct (get_item k (session s)) as [[x|e] w']; simpl in *; [eauto|done].
      - rewrite (resolve_cached _ _ _ _ Hn Hv). eauto. }
    rewrite Hres.
    destruct (resolve_frame _ _ _ _ Hinv Hres) as (Hinv1 & Hids1 & _).
    apply IH; [done|].
    replace (length (_items (self s1))) with (length (_items (self s))); [done|].
    unfold inv in *. congruence.
Qed.

Lemma getitem_slice_selected s sl sel :
  inv (self s) ->
  slice_range sl (__len__ (self s)) = Ok sel ->
  __getitem__ (Slc sl) s =
    match for_each sel resolve s with
    | (Ok _, s') =>
        match getitems (_items (self s')) sel with
        | Ok l => (Ok (Many l), s')
        | Raise e => (Raise e, s')
        end
    | (Raise e, s') => (Raise e, s')
    end.
Proof.
  intros Hinv Hsel. rewrite getitem_slice_unfold, Hsel.
  destruct (for_each sel resolve s) as [[[]|e] s'] eqn:Hloop; [|done].
  destruct (for_each_frame _ _ _ _ Hinv Hloop) as (Hinv' & Hids & _).
  unfold list_getslice.
  replace (Z.of_nat (length (_items (self s')))) with (__len__ (self s)).
  - by rewrite Hsel.
  - unfold __len__, inv in *. congruence.
Qed.

(** C3 (as amended).  A slice with step 0 makes [get] raise ValueError
    and nothing else happens.  Any other slice selects distinct slots of
    the collection, in ascending order for a positive step and in
    descending order for a negative one; [get] visits them in that order
    and invokes the resolver once for each selected slot that is unset
    when visited.  If none of these calls raises (in particular if the
    resolver never raises), [get] returns the values of the selected
    slots in the order of the selection, each value the resolver
    returned is in its slot, and the slots outside the selection and the
    objects already memoized are as before.  An empty selection returns
    the empty list without invoking the resolver. *)
Theorem getitem_slice s sl :
  inv (self s) ->
  (step sl = Some 0 ->
   __getitem__ (Slc sl) s
     = (Raise (Exn ValueError "slice step cannot be zero"), s)) /\
  (step sl <> Some 0 ->
   exists sel,
     slice_range sl (__len__ (self s)) = Ok sel /\
     Forall (fun i => 0 <= i < __len__ (self s)) sel /\ NoDup sel /\
     (0 < default 1 (step sl) -> ascending sel) /\
     (default 1 (step sl) < 0 -> descending sel) /\
     (sel = [] -> __getitem__ (Slc sl) s = (Ok (Many []), s)) /\
     (forall r s',
        __getitem__ (Slc sl) s = (Ok r, s') ->
        (exists l, r = Many l /\
           Some <$> l = (fun i => _items (self s') !! Z.to_nat i) <$> sel) /\
        (forall j, Z.of_nat j ∉ sel ->
           _items (self s') !! j = _items (self s) !! j) /\
        (forall j o, _items (self s) !! j = Some (PyObj o) ->
           _items (self s') !! j = Some (PyObj o)) /\
        exists calls,
          trace s' = trace s ++ calls /\
          Forall2 (fun i c =>
                     ids (self s) !! Z.to_nat i = Some (call_key c) /\
                     exists x, call_ret c = Ok x /\
                               _items (self s') !! Z.to_nat i = Some x)
                  (List.filter (unset (_items (self s))) sel) calls) /\
     ((forall k w, is_Ok (fst (get_item k w)) = true) ->
      is_Ok (fst (__getitem__ (Slc sl) s)) = true)).
Proof.
  intros Hinv. split.
  - intros Hz. by rewrite getitem_slice_unfold, (slice_range_zero _ _ Hz).
  - intros Hnz.
    destruct (slice_range_Ok sl (length (ids (self s))) Hnz)
      as (sel & Hsel & Hb & Hnd & Hasc & Hdesc).
    fold (__len__ (self s)) in Hsel, Hb.
    assert (Forall (fun i => 0 <= i < Z.of_nat (length (_items (self s)))) sel)
      as Hb' by (unfold __len__ in Hb; by rewrite <- Hinv).
    pose proof (getitem_slice_selected _ _ _ Hinv Hsel) as Hunf.
    exists sel. repeat (split; [done|]). split; [|split].
    + intros ->. by rewrite Hunf.
    + intros r s' Hget. rewrite Hunf in Hget.
      destruct (for_each sel resolve s) as [[[]|e] s1] eqn:Hloop; [|done].
      destruct (for_each_frame _ _ _ _ Hinv Hloop) as (Hinv1 & Hids1 & Hkeep).
      assert (length (_items (self s1)) = length (_items (self s))) as Hlen
        by (unfold inv in *; congruence).
      destruct (getitems_in_range (_items (self s1)) sel) as (xs & Hxs & Hmap).
      { by rewrite Hlen. }
      rewrite Hxs in Hget. injection Hget as <- <-.
      destruct (for_each_resolve_Ok _ _ _ Hinv Hb' Hnd Hloop) as [Hout Hcalls].
      split; [eauto|]. done.
    + intros Htot. rewrite Hunf.
      destruct (for_each_resolve_total sel s Htot Hinv Hb') as [s1 Hloop].
      rewrite Hloop.
      destruct (for_each_frame _ _ _ _ Hinv Hloop) as (Hinv1 & Hids1 & _).
      destruct (getitems_in_range (_items (self s1)) sel) as (xs & Hxs & _).
      { replace (length (_items (self s1))) with (length (_items (self s)));
          [done|]. unfold inv in *. congruence. }
      by rewrite Hxs.
Qed.

End Collection.

(** ** The adapter *)

Section Adapter.
Import IterableToFileAdapter.

Lemma reads_list (chunks : list bytes) (n : Z) (sizes : list Z) :
  reads (Build chunks n) sizes =
    (take (List.length sizes) chunks
       ++ replicate (List.length sizes - List.length chunks) [],
     Build (drop (List.length sizes) chunks) n).
Proof.
  revert chunks. induction sizes as [|sz sizes IH]; intros chunks.
  - by rewrite drop_0.
  - destruct chunks as [|c chunks]; simpl; unfold read, next; simpl;
      rewrite IH; simpl; [|done].
    by rewrite take_nil, drop_nil, Nat.sub_0_r.
Qed.

(** C5.  For an adapter over any source of chunks: [read(size)] does not
    depend on [size]; it returns the next chunk of the source and
    advances the source past it, or returns the empty chunk if the source
    is exhausted; it leaves the declared length alone, which is what
    [length()] returns.  Built from a list of chunks and a declared
    length [n], successive reads return the chunks in order and then
    empty chunks, and [length()] is [n] before, between and after them.
    From [[b"ab", b"cd"]] and 4: three reads return [b"ab"], [b"cd"],
    [b""], and [length()] is 4 throughout. *)
Theorem read_returns_next_chunk :
  (forall (I : Type) (it : Iterator I bytes) (self : t I) (sz sz' : Z),
     read self sz = read self sz' /\
     read self sz =
       match iter_next (iterator self) with
       | Some (c, it') => (c, Build it' (length self))
       | None => ([], Build (iterator self) (length self))
       end /\
     __len__ (snd (read self sz)) = __len__ self) /\
  (forall (chunks : list bytes) (n : Z) (sizes : list Z),
     let a := __init__ chunks n in
     fst (reads a sizes)
       = take (List.length sizes) chunks
           ++ replicate (List.length sizes - List.length chunks) [] /\
     iterator (snd (reads a sizes)) = drop (List.length sizes) chunks /\
     __len__ a = n /\ __len__ (snd (reads a sizes)) = n) /\
  (let a := __init__ [Sessions.ab; Sessions.cd] 4 in
   fst (reads a [-1; 8192; 1]) = [Sessions.ab; Sessions.cd; []] /\
   __len__ a = 4 /\
   __len__ (snd (reads a [-1])) = 4 /\
   __len__ (snd (reads a [-1; 8192])) = 4 /\
   __len__ (snd (reads a [-1; 8192; 1])) = 4).
Proof.
  split; [|split].
  - intros I it self sz sz'. unfold read, next.
    destruct (iter_next (iterator self)) as [[c it']|]; done.
  - intros chunks n sizes a. subst a. unfold __init__.
    by rewrite reads_list.
  - by vm_compute.
Qed.

End Adapter.

(** ** The properties on concrete collections *)

Section Examples.
Import IdentifierListAsItems Sessions.

(** C2.  A [ValueError] raised by the resolver inside
    [get_by_name] does not reach the caller: on the collection [["a"]]
    with a session whose [get_item] raises [ValueError], [get(0)] raises
    that [ValueError], and [get_by_name("a")] raises [AttributeError]
    instead.  Both leave slot 0 unset, and a second call asks the session
    again. *)
Theorem getattr_masks_resolver_ValueError :
  let s0 := new (IdList ["a"]) 0%nat in
  let failure := Exn ValueError "No JSON object could be decoded" in
  let s1 := State (self s0) 1%nat [Call "a" (Raise failure)] in
  let s2 := State (self s0) 2%nat [Call "a" (Raise failure); Call "a" (Raise failure)] in
  bad_json "a" 0%nat = (Raise failure, 1%nat) /\
  __getitem__ bad_json (Int 0) s0 = (Raise failure, s1) /\
  __getattr__ bad_json "a" s0 = (Raise (Exn AttributeError ""), s1) /\
  Raise (A := items string) (Exn AttributeError "") <> Raise failure /\
  _items (self s1) = [PyNone] /\
  __getitem__ bad_json (Int 0) s1 = (Raise failure, s2) /\
  __getattr__ bad_json "a" s1 = (Raise (Exn AttributeError ""), s2).
Proof. repeat split; try reflexivity. discriminate. Qed.

(** C1, counterexample: on a session whose [get_item] returns [None],
    two [get(1)] both return [None] and the resolver is invoked twice for
    slot 1. *)
Lemma getitem_twice_refetches_None :
  exists s1 s2,
    __getitem__ nothing (Int 1) abc = (Ok (One PyNone), s1) /\
    __getitem__ nothing (Int 1) s1 = (Ok (One PyNone), s2) /\
    call_key <$> trace s2 = ["b"; "b"] /\
    ~ (List.length (trace s2) <= List.length (trace abc) + 1)%nat.
Proof.
  eexists _, _. split; [reflexivity|]. split; [reflexivity|].
  split; [reflexivity|]. simpl. lia.
Qed.

Lemma getitem_twice_memoized_witness :
  let s1 := snd (__getitem__ echo (Int 1) abc) in
  inv (self abc) /\
  __getitem__ echo (Int 1) abc = (Ok (One (PyObj "b")), s1) /\
  __getitem__ echo (Int 1) s1 = (Ok (One (PyObj "b")), s1) /\
  (trace s1 = trace abc \/
   exists k, list_getitem (ids (self abc)) 1 = Ok k /\
             trace s1 = trace abc ++ [Call k (Ok (PyObj "b"))]).
Proof.
  intros s1.
  assert (inv (self abc)) as Hinv by reflexivity.
  assert (__getitem__ echo (Int 1) abc = (Ok (One (PyObj "b")), s1)) as Hget
    by reflexivity.
  exact (conj Hinv (conj Hget (getitem_twice_memoized echo abc 1 "b" s1 Hinv Hget))).
Defined.

(** C10, counterexample: on a session whose [get_item] returns [None],
    [get(-1)] and then [get(2)] on three keys invoke the resolver twice
    for the last slot. *)
Lemma getitem_negative_refetches_None :
  exists s1 s2,
    __getitem__ nothing (Int (-1)) abc = (Ok (One PyNone), s1) /\
    __getitem__ nothing (Int (3 - 1)) s1 = (Ok (One PyNone), s2) /\
    call_key <$> trace s2 = ["c"; "c"] /\
    ~ (List.length (trace s2) <= List.length (trace abc) + 1)%nat.
Proof.
  eexists _, _. split; [reflexivity|]. split; [reflexivity|].
  split; [reflexivity|]. simpl. lia.
Qed.

Lemma getitem_negative_index_witness :
  let s1 := snd (__getitem__ echo (Int (-1)) abc) in
  inv (self abc) /\ 1 <= 1 <= 3 /\
  __getitem__ echo (Int (-1)) abc = __getitem__ echo (Int (3 - 1)) abc /\
  __getitem__ echo (Int (-1)) abc = (Ok (One (PyObj "c")), s1) /\
  __getitem__ echo (Int (3 - 1)) s1 = (Ok (One (PyObj "c")), s1) /\
  (trace s1 = trace abc \/ exists c, trace s1 = trace abc ++ [c]).
Proof.
  intros s1.
  assert (inv (self abc)) as Hinv by reflexivity.
  assert (1 <= 1 <= 3) as Hk by lia.
  assert (__getitem__ echo (Int (-1)) abc = (Ok (One (PyObj "c")), s1)) as Hget
    by reflexivity.
  destruct (getitem_negative_index echo abc 1 Hinv Hk) as [Heq Hmemo].
  destruct (Hmemo (-1) (3 - 1) "c" s1 (or_introl (conj eq_refl eq_refl)) Hget)
    as [H2 Htr].
  exact (conj Hinv (conj Hk (conj Heq (conj Hget (conj H2 Htr))))).
Defined.

Lemma getitem_index_range_witness :
  inv (self abc) /\
  (3 < -3 \/ 3 <= 3) /\
  __getitem__ echo (Int 3) abc
    = (Raise (Exn IndexError "list index out of range"), abc) /\
  -3 <= -1 < 3 /\
  exists j k v,
    Z.of_nat j = 3 + -1 /\
    ids (self abc) !! j = Some k /\ _items (self abc) !! j = Some v.
Proof.
  assert (inv (self abc)) as Hinv by reflexivity.
  assert (3 < -3 \/ 3 <= 3) as Hout by lia.
  assert (-3 <= -1 < 3) as Hin by lia.
  destruct (getitem_index_range echo abc 3 Hinv) as [Hraise _].
  destruct (getitem_index_range echo abc (-1) Hinv) as [_ Hslot].
  destruct (Hslot Hin) as (j & k & v & Hj & Hk & Hv & _).
  refine (conj Hinv (conj Hout (conj (Hraise Hout) (conj Hin _)))).
  exists j, k, v. exact (conj Hj (conj Hk Hv)).
Defined.

(** C3, counterexample: the slice [[::-1]] of three keys is resolved
    from the last slot to the first, not in ascending order of the
    slots; and the slice [[::0]] returns no sequence at all. *)
Lemma getitem_slice_resolves_descending :
  (exists s',
     __getitem__ echo (Slc (Slice None None (Some (-1)))) abc
       = (Ok (Many [PyObj "c"; PyObj "b"; PyObj "a"]), s') /\
     call_key <$> trace s' = ["c"; "b"; "a"] /\
     call_key <$> trace s' <> ["a"; "b"; "c"]) /\
  __getitem__ echo (Slc (Slice None None (Some 0))) abc
    = (Raise (Exn ValueError "slice step cannot be zero"), abc).
Proof.
  split; [|reflexivity]. eexists. split; [reflexivity|].
  split; [reflexivity|discriminate].
Qed.

Lemma getitem_slice_witness :
  let sl := Slice (Some 0) (Some 2) None in
  let s' := snd (__getitem__ echo (Slc sl) abc) in
  inv (self abc) /\ step sl <> Some 0 /\
  __getitem__ echo (Slc sl) abc = (Ok (Many [PyObj "a"; PyObj "b"]), s') /\
  exists sel,
    slice_range sl (__len__ (self abc)) = Ok sel /\ NoDup sel /\
    (exists l, Many [PyObj "a"; PyObj "b"] = Many l /\
       Some <$> l = (fun i => _items (self s') !! Z.to_nat i) <$> sel) /\
    (Z.of_nat 2 ∉ sel -> _items (self s') !! 2%nat = _items (self abc) !! 2%nat) /\
    exists calls, trace s' = trace abc ++ calls.
Proof.
  intros sl s'.
  assert (inv (self abc)) as Hinv by reflexivity.
  assert (step sl <> Some 0) as Hstep by discriminate.
  assert (__getitem__ echo (Slc sl) abc = (Ok (Many [PyObj "a"; PyObj "b"]), s'))
    as Hget by reflexivity.
  destruct (getitem_slice echo abc sl Hinv) as [_ Hsel].
  destruct (Hsel Hstep) as (sel & Hrange & _ & Hnd & _ & _ & _ & Hok & _).
  destruct (Hok _ _ Hget) as (Hval & Hout & _ & calls & Htr & _).
  refine (conj Hinv (conj Hstep (conj Hget _))).
  exists sel. refine (conj Hrange (conj Hnd (conj Hval (conj (Hout 2%nat) _)))).
  exists calls. exact Htr.
Defined.

(** C4, counterexample: on a session whose [get_item] returns [None],
    two [get_by_name("b")] invoke the resolver twice. *)
Lemma getattr_twice_refetches_None :
  exists s1 s2,
    __getattr__ nothing "b" abc = (Ok (One PyNone), s1) /\
    __getattr__ nothing "b" s1 = (Ok (One PyNone), s2) /\
    call_key <$> trace s2 = ["b"; "b"] /\
    ~ (List.length (trace s2) <= List.length (trace abc) + 1)%nat.
Proof.
  eexists _, _. split; [reflexivity|]. split; [reflexivity|].
  split; [reflexivity|]. simpl. lia.
Qed.

Lemma getattr_as_getitem_witness :
  let s1 := snd (__getattr__ echo "b" abc) in
  inv (self abc) /\
  ("z" ∉ ids (self abc)) /\
  __getattr__ echo "z" abc = (Raise (Exn AttributeError ""), abc) /\
  ("b" ∈ ids (self abc)) /\
  __getattr__ echo "b" abc = __getitem__ echo (Int 1) abc /\
  __getattr__ echo "b" abc = (Ok (One (PyObj "b")), s1) /\
  __getattr__ echo "b" s1 = (Ok (One (PyObj "b")), s1) /\
  (trace s1 = trace abc \/ trace s1 = trace abc ++ [Call "b" (Ok (PyObj "b"))]).
Proof.
  intros s1.
  assert (inv (self abc)) as Hinv by reflexivity.
  assert ("z" ∉ ids (self abc)) as Hz by (apply first_index_None; reflexivity).
  assert ("b" ∈ ids (self abc)) as Hb
    by (apply list_elem_of_lookup; exists 1%nat; reflexivity).
  assert (__getattr__ echo "b" abc = (Ok (One (PyObj "b")), s1)) as Hget
    by reflexivity.
  destruct (getattr_as_getitem echo abc "z" Hinv) as [Habsent _].
  destruct (getattr_as_getitem echo abc "b" Hinv) as [_ Hpresent].
  destruct (Hpresent Hb) as (j & Hfi & _ & Hsame & Hmemo).
  assert (j = 1%nat) as -> by (injection Hfi as <-; reflexivity).
  assert (forall e, fst (__getitem__ echo (Int (Z.of_nat 1)) abc) = Raise e ->
                    is_ValueError e = false) as Hnv
    by (intros e He; discriminate He).
  destruct (Hmemo "b" s1 Hget) as [H2 Htr].
  exact (conj Hinv (conj Hz (conj (Habsent Hz) (conj Hb
          (conj (Hsame Hnv) (conj Hget (conj H2 Htr))))))).
Defined.

Lemma invariant_preserved_witness :
  let s' := snd (invoke echo (getitem_ (Slc (Slice None None (Some 2)))) abc) in
  inv (self abc) /\
  inv (self s') /\ ids (self s') = ids (self abc) /\
  __len__ (self s') = __len__ (self abc) /\
  forall j o, _items (self abc) !! j = Some (PyObj o) ->
              _items (self s') !! j = Some (PyObj o).
Proof.
  intros s'.
  assert (inv (self abc)) as Hinv by reflexivity.
  destruct (invariant_preserved echo) as (_ & Hstep & _).
  exact (conj Hinv
           (Hstep (getitem_ (Slc (Slice None None (Some 2)))) abc
                  (fst (invoke echo (getitem_ (Slc (Slice None None (Some 2)))) abc))
                  s' Hinv eq_refl)).
Defined.

Lemma getattr_first_occurrence_witness :
  let s' := snd (__getattr__ echo "a" baca) in
  inv (self baca) /\
  ids (self baca) !! 1%nat = Some "a" /\
  (forall j', (j' < 1)%nat -> ids (self baca) !! j' <> Some "a") /\
  first_index (ids (self baca)) "a" = Some 1%nat /\
  ids (self baca) !! 3%nat = Some "a" /\
  __getattr__ echo "a" baca = (Ok (One (PyObj "a")), s') /\
  _items (self s') !! 1%nat = Some (PyObj "a") /\
  _items (self s') !! 3%nat = _items (self baca) !! 3%nat /\
  _items (self baca) !! 3%nat = Some PyNone.
Proof.
  intros s'.
  assert (inv (self baca)) as Hinv by reflexivity.
  assert (ids (self baca) !! 1%nat = Some "a") as Hj by reflexivity.
  assert (forall j', (j' < 1)%nat -> ids (self baca) !! j' <> Some "a") as Hmin.
  { intros [|j'] Hlt; [discriminate|lia]. }
  destruct (getattr_first_occurrence echo baca "a" 1%nat Hinv Hj Hmin)
    as (Hfi & Hrun & _ & Hfetch).
  destruct (Hrun (fst (__getattr__ echo "a" baca)) s' eq_refl)
    as (_ & Hother & _ & _).
  assert (3%nat <> 1%nat) as Hne by discriminate.
  refine (conj Hinv (conj Hj (conj Hmin (conj Hfi (conj eq_refl
           (conj (Hfetch (PyObj "a") 1%nat eq_refl eq_refl)
              (conj eq_refl (conj (Hother 3%nat Hne) eq_refl)))))))).
Defined.

End Examples.

(** ** Reading a file in chunks *)

Section Files.
Import ChunkGenerator.

Lemma take_drop_length {A} (n : nat) (l : list A) :
  take n l ++ drop (length (take n l)) l = l.
Proof.
  rewrite length_take. destruct (Nat.min_spec n (length l)) as [[_ ->]|[Hle ->]].
  - apply take_drop.
  - by rewrite drop_all, take_ge, app_nil_r.
Qed.


Lemma ssize_max_pos : 8192 < File.ssize_max.
Proof. done. Qed.

(** A read of a size the file accepts. *)
Lemma read_accepted (f : File.t) (size : Z) :
  -1 <= size <= File.ssize_max ->
  exists data f',
    File.read f size = (Ok data, f') /\
    data ++ File.rest f' = File.rest f /\
    File.content f' = File.content f /\
    (size = -1 -> data = File.rest f) /\
    (0 <= size ->
     length data = Nat.min (Z.to_nat size) (length (File.rest f))).
Proof.
  intros Hsize. pose proof ssize_max_pos as Hmax. unfold File.read.
  destruct (Z.ltb_spec size (- File.ssize_max - 1)); [lia|].
  destruct (Z.ltb_spec File.ssize_max size); [lia|].
  destruct (Z.ltb_spec size (-1)); [lia|]. simpl.
  eexists _, _. split; [done|].
  unfold File.rest. cbn [File.content File.pos].
  destruct (Z.eqb_spec size (-1)) as [->|Hne].
  - split; [|split; [done|split; [done|lia]]].
    by rewrite <- drop_drop, drop_all, app_nil_r.
  - split; [|split; [done|split; [lia|]]].
    + rewrite <- drop_drop. apply take_drop_length.
    + intros _. apply length_take.
Qed.

Lemma read_positive (f : File.t) (n : Z) :
  0 < n <= File.ssize_max ->
  exists data f',
    File.read f n = (Ok data, f') /\
    data ++ File.rest f' = File.rest f /\
    File.content f' = File.content f /\
    (length data <= Z.to_nat n)%nat /\
    (data = [] -> File.rest f = []) /\
    (File.rest f' <> [] -> length data = Z.to_nat n).
Proof.
  intros Hn.
  destruct (read_accepted f n ltac:(lia)) as (data & f' & Hr & Happ & Hcont & _ & Hlen).
  specialize (Hlen ltac:(lia)). exists data, f'.
  split; [done|]. split; [done|]. split; [done|]. split; [lia|]. split.
  - intros ->. simpl in Hlen. destruct (File.rest f); [done|]. simpl in Hlen. lia.
  - intros Hne. rewrite <- Happ, length_app in Hlen.
    destruct (File.rest f'); [done|]. simpl in Hlen. lia.
Qed.

Lemma drain_S (fuel : nat) (g : t) :
  drain (S fuel) g =
    match next_chunk g with
    | (Yield chunk, g') =>
        match drain fuel g' with
        | Some (chunks, e, g'') => Some (chunk :: chunks, e, g'')
        | None => None
        end
    | (Stop, g') => Some ([], None, g')
    | (Fail e, g') => Some ([], Some e, g')
    end.
Proof. done. Qed.

Lemma next_chunk_running (f : File.t) (n : Z) :
  next_chunk (Build f n false) =
    match File.read f n with
    | (Raise e, f') => (Fail e, Build f' n true)
    | (Ok [], f') => (Stop, Build f' n true)
    | (Ok (b :: data), f') => (Yield (b :: data), Build f' n false)
    end.
Proof. done. Qed.



(** X2.  The other chunk sizes.  With chunk size 0 the generator yields
    nothing and leaves the file where it was, whatever the file still
    holds.  With chunk size -1 it yields the whole unread rest as one
    chunk (nothing if the rest is empty).  With any other negative chunk
    size the first step raises, nothing is yielded and the file is where
    it was: [ValueError] comes out of the read, or [OverflowError] if the
    size does not fit a machine word; a chunk size above [sys.maxsize]
    raises [OverflowError] in the same way.  The generator is finished
    in every case. *)
Theorem chunk_generator_edge_sizes (n : Z) (fuel : nat) (f : File.t) :
  (n = 0 ->
   drain (S fuel) (chunk_generator f n)
     = Some ([], None, Build (File.Build (File.content f) (File.pos f)) n true)) /\
  (n = -1 ->
   exists f',
     drain (S (S fuel)) (chunk_generator f n)
       = Some (match File.rest f with [] => [] | _ :: _ => [File.rest f] end,
               None, Build f' n true) /\
     File.rest f' = [] /\ File.content f' = File.content f) /\
  (- File.ssize_max - 1 <= n < -1 ->
   drain (S fuel) (chunk_generator f n)
     = Some ([], Some (Exn ValueError "read length must be non-negative or -1"),
             Build f n true)) /\
  (n < - File.ssize_max - 1 \/ File.ssize_max < n ->
   drain (S fuel) (chunk_generator f n)
     = Some ([], Some File.OverflowError, Build f n true)).
Proof.
  unfold chunk_generator. split; [|split; [|split]].
  - intros ->. rewrite drain_S, next_chunk_running. unfold File.read. simpl.
    by rewrite Nat.add_0_r.
  - intros ->. pose proof ssize_max_pos as Hmax.
    rewrite drain_S, next_chunk_running.
    destruct (read_accepted f (-1) ltac:(lia))
      as (data & f1 & -> & Happ & Hcont & Hall & _).
    specialize (Hall eq_refl). subst data.
    assert (File.rest f1 = []) as Hnil.
    { apply (f_equal length) in Happ. rewrite length_app in Happ.
      destruct (File.rest f1); [done|]. simpl in Happ. lia. }
    destruct (File.rest f) as [|b rest] eqn:Hrest.
    + by exists f1.
    + rewrite drain_S, next_chunk_running.
      destruct (read_accepted f1 (-1) ltac:(lia))
        as (data1 & f2 & -> & Happ1 & Hcont1 & Hall1 & _).
      rewrite (Hall1 eq_refl), Hnil in *. simpl in Happ1.
      exists f2. split; [done|]. split; [done|congruence].
  - intros Hn. pose proof ssize_max_pos as Hmax.
    rewrite drain_S, next_chunk_running. unfold File.read.
    destruct (Z.ltb_spec n (- File.ssize_max - 1)); [lia|].
    destruct (Z.ltb_spec File.ssize_max n); [lia|].
    destruct (Z.ltb_spec n (-1)); [|lia]. done.
  - intros Hn. rewrite drain_S, next_chunk_running. unfold File.read.
    destruct (Z.ltb_spec n (- File.ssize_max - 1)); [done|].
    destruct (Z.ltb_spec File.ssize_max n); [done|lia].
Qed.

Lemma collect_S {I A : Type} `{Iterator I A} (fuel : nat) (it : I) :
  collect (S fuel) it =
    match iter_next it with
    | None => Some ([], it)
    | Some (x, it') =>
        match collect fuel it' with
        | Some (xs, it'') => Some (x :: xs, it'')
        | None => None
        end
    end.
Proof. done. Qed.

Lemma reads_exhausted {I : Type} `{Iterator I (list byte)} (it : I) (n : Z)
    (sizes : list Z) :
  iter_next it = None ->
  IterableToFileAdapter.reads (IterableToFileAdapter.Build it n) sizes
    = (replicate (length sizes) [], IterableToFileAdapter.Build it n).
Proof.
  intros Hend. induction sizes as [|sz sizes IH]; [done|].
  simpl. unfold IterableToFileAdapter.read, next. simpl.
  by rewrite Hend, IH.
Qed.

Lemma reads_collect {I : Type} `{Iterator I (list byte)} (fuel : nat) (it it' : I)
    (xs : list (list byte)) (n : Z) (sizes : list Z) :
  collect fuel it = Some (xs, it') ->
  fst (IterableToFileAdapter.reads (IterableToFileAdapter.Build it n) sizes)
    = take (length sizes) xs ++ replicate (length sizes - length xs) [] /\
  IterableToFileAdapter.length
    (snd (IterableToFileAdapter.reads (IterableToFileAdapter.Build it n) sizes)) = n.
Proof.
  revert it xs sizes. induction fuel as [|fuel IH]; intros it xs sizes; [done|].
  rewrite collect_S. destruct (iter_next it) as [[x it1]|] eqn:Hnext.
  - destruct (collect fuel it1) as [[xs1 it2]|] eqn:Hcol; [|done].
    intros [= <- <-]. destruct sizes as [|sz sizes]; [done|].
    destruct (IH it1 xs1 sizes Hcol) as [Hfst Hlen].
    simpl. unfold IterableToFileAdapter.read, next. simpl. rewrite Hnext.
    destruct (IterableToFileAdapter.reads _ sizes) as [cs a]. simpl in *.
    by rewrite Hfst.
  - intros [= <- <-]. rewrite (reads_exhausted _ _ _ Hnext). simpl.
    by rewrite take_nil, Nat.sub_0_r.
Qed.



(** X3.  An adapter over a source that is exhausted after finitely many
    chunks reads exactly as the adapter over the list of these chunks:
    the chunks in order, then empty chunks; its declared length is not
    affected. *)
Theorem adapter_over_finite_source {I : Type} `{Iterator I (list byte)}
    (fuel : nat) (it it' : I) (xs : list (list byte)) (n : Z) (sizes : list Z) :
  collect fuel it = Some (xs, it') ->
  let a := IterableToFileAdapter.__init__ it n in
  fst (IterableToFileAdapter.reads a sizes)
    = fst (IterableToFileAdapter.reads (IterableToFileAdapter.__init__ xs n) sizes) /\
  fst (IterableToFileAdapter.reads a sizes)
    = take (length sizes) xs ++ replicate (length sizes - length xs) [] /\
  IterableToFileAdapter.__len__ (snd (IterableToFileAdapter.reads a sizes)) = n.
Proof.
  intros Hcol a. subst a. unfold IterableToFileAdapter.__init__.
  destruct (reads_collect _ _ _ _ n sizes Hcol) as [Hfst Hlen].
  split; [|done]. rewrite Hfst. by rewrite reads_list.
Qed.




(** ** [get_md5] *)

Section Md5.
Context {H : Type} (md5 : H) (update : H -> list byte -> H)
        (hexdigest : H -> string).

Lemma digest_loop_S (fuel : nat) (m : H) (f : File.t) :
  Md5.digest_loop update (S fuel) m f =
    match File.read f 8192 with
    | (Raise e, f') => Some (Raise e, f')
    | (Ok [], f') => Some (Ok m, f')
    | (Ok (b :: data), f') => Md5.digest_loop update fuel (update m (b :: data)) f'
    end.
Proof. done. Qed.

Lemma digest_loop_spec (fuel : nat) (m : H) (f : File.t) :
  (forall m a b, update (update m a) b = update m (a ++ b)) ->
  (length (File.rest f) < fuel)%nat ->
  exists f',
    Md5.digest_loop update fuel m f
      = Some (Ok (match File.rest f with [] => m | _ :: _ => update m (File.rest f) end),
              f') /\
    File.content f' = File.content f.
Proof.
  intros Hlaw. revert m f. induction fuel as [|fuel IH]; intros m f Hfuel; [lia|].
  rewrite digest_loop_S.
  destruct (read_positive f 8192 ltac:(split; [lia|apply Z.lt_le_incl, ssize_max_pos]))
    as (data & f1 & -> & Happ & Hcont & _ & Hnil & _).
  destruct data as [|b data].
  - exists f1. by rewrite (Hnil eq_refl).
  - destruct (IH (update m (b :: data)) f1) as (f' & Hloop & Hcont').
    { rewrite <- Happ, length_app in Hfuel. simpl in Hfuel. lia. }
    exists f'. split; [|congruence]. rewrite Hloop, <- Happ.
    destruct (File.rest f1) as [|b1 rest1].
    + by rewrite app_nil_r.
    + simpl. by rewrite Hlaw.
Qed.

(** X5.  [get_md5] digests the file from its current position to its
    end, in reads of 8192 bytes, and returns without raising; the digest
    is the one of these bytes hashed in one piece, given that feeding a
    hash object two pieces is feeding it their concatenation; bytes
    before the position are not digested.  Afterwards the position of
    the file is 0, wherever it was before, and its content is as
    before. *)
Theorem get_md5_digests_rest (fuel : nat) (f : File.t) :
  (forall m a b, update (update m a) b = update m (a ++ b)) ->
  (length (File.rest f) < fuel)%nat ->
  Md5.get_md5 md5 update hexdigest fuel f
    = Some (Ok (hexdigest (match File.rest f with
                           | [] => md5
                           | _ :: _ => update md5 (File.rest f)
                           end)),
            File.Build (File.content f) 0).
Proof.
  intros Hlaw Hfuel. unfold Md5.get_md5.
  destruct (digest_loop_spec fuel md5 f Hlaw Hfuel) as (f' & -> & Hcont).
  unfold File.seek. by rewrite Hcont.
Qed.

End Md5.

End Files.

(** ** [deep_update] *)

Section DeepUpdate.
Import DeepUpdate.
Context {A : Type}.

Implicit Types (d u v r sub : val A) (k : string)
  (items ditems uitems ritems : list (string * val A)).

Lemma val_ind' (P : val A -> Prop) :
  (forall a, P (Atom a)) ->
  (forall items, Forall (fun kv => P kv.2) items -> P (Dict items)) ->
  forall v, P v.
Proof.
  intros Hatom Hdict. fix IH 1. intros [a|items]; [apply Hatom|].
  apply Hdict. induction items as [|[k v] items IHitems]; constructor.
  - apply IH.
  - apply IHitems.
Qed.

Lemma wf_Dict items :
  wf (Dict items) <-> NoDup (fst <$> items) /\ Forall (fun kv => wf kv.2) items.
Proof.
  simpl. split; intros [Hnd Hall]; (split; [done|]).
  - clear Hnd. induction items as [|[k v] items IH]; [constructor|].
    destruct Hall as [Hv Hall]. constructor; [done|]. by apply IH.
  - clear Hnd. induction Hall as [|[k v] items Hv _ IH]; [done|]. by split.
Qed.

Lemma deep_update_nil d : deep_update d (Dict []) = (None, d).
Proof. done. Qed.

Lemma deep_update_cons d k v uitems :
  deep_update d (Dict ((k, v) :: uitems)) =
    match v, d with
    | Dict _, Atom _ => (Some (Exn AttributeError ""), d)
    | Dict _, Dict ditems =>
        match dict_get ditems k with
        | Some sub =>
            match deep_update sub v with
            | (None, sub') => deep_update (Dict (dict_set ditems k sub')) (Dict uitems)
            | (Some e, sub') => (Some e, Dict (dict_set ditems k sub'))
            end
        | None =>
            match deep_update (Dict []) v with
            | (None, sub') => deep_update (Dict (dict_set ditems k sub')) (Dict uitems)
            | (Some e, _) => (Some e, d)
            end
        end
    | Atom _, Atom _ => (Some (Exn (OtherError "TypeError") ""), d)
    | Atom _, Dict ditems => deep_update (Dict (dict_set ditems k v)) (Dict uitems)
    end.
Proof. destruct v, d; done. Qed.

Lemma dict_get_None items k : dict_get items k = None <-> k ∉ fst <$> items.
Proof.
  induction items as [|[k' v] items IH]; simpl.
  - split; [intros _; apply not_elem_of_nil|done].
  - rewrite not_elem_of_cons. destruct (decide (k' = k)) as [->|Hne].
    + split; [done|]. by intros [? _].
    + rewrite IH. split; [by split|by intros [_ ?]].
Qed.

Lemma dict_get_elem items k v :
  NoDup (fst <$> items) -> (k, v) ∈ items -> dict_get items k = Some v.
Proof.
  induction items as [|[k' v'] items IH]; simpl; intros Hnd Hin.
  - by apply elem_of_nil in Hin.
  - apply NoDup_cons in Hnd as [Hk' Hnd].
    apply elem_of_cons in Hin as [[= <- <-]|Hin].
    + by rewrite decide_True.
    + destruct (decide (k' = k)) as [->|Hne]; [|by apply IH].
      exfalso. apply Hk'. apply list_elem_of_fmap. by exists (k, v).
Qed.

Lemma dict_get_set_eq items k v : dict_get (dict_set items k v) k = Some v.
Proof.
  induction items as [|[k' v'] items IH]; simpl.
  - by rewrite decide_True.
  - destruct (decide (k' = k)) as [->|Hne]; simpl.
    + by rewrite decide_True.
    + by rewrite decide_False.
Qed.

Lemma dict_get_set_ne items k k' v :
  k <> k' -> dict_get (dict_set items k v) k' = dict_get items k'.
Proof.
  intros Hne. induction items as [|[k0 v0] items IH]; simpl.
  - by rewrite decide_False.
  - destruct (decide (k0 = k)) as [->|Hne0]; simpl.
    + by rewrite !decide_False.
    + by rewrite IH.
Qed.

Lemma dict_set_same items k v :
  dict_get items k = Some v -> dict_set items k v = items.
Proof.
  induction items as [|[k' v'] items IH]; simpl; [done|].
  destruct (decide (k' = k)) as [->|Hne].
  - by intros [= ->].
  - intros Hget. by rewrite IH.
Qed.

Lemma dict_set_fresh items k v :
  dict_get items k = None -> dict_set items k v = items ++ [(k, v)].
Proof.
  induction items as [|[k' v'] items IH]; simpl; [done|].
  destruct (decide (k' = k)) as [->|Hne]; [done|].
  intros Hget. by rewrite IH.
Qed.

Lemma dict_set_keys items k v :
  fst <$> dict_set items k v
    = (fst <$> items)
        ++ match dict_get items k with Some _ => [] | None => [k] end.
Proof.
  induction items as [|[k' v'] items IH]; simpl; [done|].
  destruct (decide (k' = k)) as [->|Hne]; simpl.
  - by rewrite app_nil_r.
  - f_equal. apply IH.
Qed.

(** A value that is no mapping is never changed; updating it raises
    unless there is nothing to update. *)
Lemma deep_update_atom (a : A) uitems :
  deep_update (Atom a) (Dict uitems) =
    match uitems with
    | [] => (None, Atom a)
    | (_, Atom _) :: _ => (Some (Exn (OtherError "TypeError") ""), Atom a)
    | (_, Dict _) :: _ => (Some (Exn AttributeError ""), Atom a)
    end.
Proof. destruct uitems as [|[k [b|vitems]] rest]; done. Qed.

Lemma deep_update_frame ditems uitems e r :
  deep_update (Dict ditems) (Dict uitems) = (e, r) ->
  exists ritems new,
    r = Dict ritems /\
    fst <$> ritems = (fst <$> ditems) ++ new /\
    (forall k, k ∈ new -> k ∈ fst <$> uitems) /\
    (forall k, k ∉ fst <$> uitems -> dict_get ritems k = dict_get ditems k).
Proof.
  revert ditems. induction uitems as [|[k1 v1] uitems IH]; intros ditems.
  - rewrite deep_update_nil. intros [= <- <-]. exists ditems, [].
    split; [done|]. split; [by rewrite app_nil_r|]. split; [|done].
    intros k Hk. by apply elem_of_nil in Hk.
  - rewrite deep_update_cons.
    assert (forall x,
      deep_update (Dict (dict_set ditems k1 x)) (Dict uitems) = (e, r) ->
      exists ritems new,
        r = Dict ritems /\
        fst <$> ritems = (fst <$> ditems) ++ new /\
        (forall k, k ∈ new -> k ∈ fst <$> ((k1, v1) :: uitems)) /\
        (forall k, k ∉ fst <$> ((k1, v1) :: uitems) ->
                   dict_get ritems k = dict_get ditems k)) as Hstep.
    { intros x Hrun.
      destruct (IH _ Hrun) as (ritems & new & -> & Hkeys & Hnew & Hget).
      exists ritems, (match dict_get ditems k1 with Some _ => [] | None => [k1] end
                      ++ new).
      split; [done|]. split; [by rewrite Hkeys, dict_set_keys, app_assoc|].
      split.
      - intros k Hk. simpl. apply elem_of_app in Hk as [Hk|Hk].
        + destruct (dict_get ditems k1); [by apply elem_of_nil in Hk|].
          apply list_elem_of_singleton in Hk as ->. left.
        + right. by apply Hnew.
      - intros k Hk. simpl in Hk. apply not_elem_of_cons in Hk as [Hne Hk].
        rewrite (Hget k Hk). by apply dict_get_set_ne. }
    assert (forall x,
      dict_get ditems k1 <> None ->
      exists ritems new,
        Dict (dict_set ditems k1 x) = Dict ritems /\
        fst <$> ritems = (fst <$> ditems) ++ new /\
        (forall k, k ∈ new -> k ∈ fst <$> ((k1, v1) :: uitems)) /\
        (forall k, k ∉ fst <$> ((k1, v1) :: uitems) ->
                   dict_get ritems k = dict_get ditems k)) as Hstop.
    { intros x Hsome. exists (dict_set ditems k1 x), [].
      split; [done|]. split.
      { rewrite dict_set_keys. by destruct (dict_get ditems k1). }
      split; [intros k Hk; by apply elem_of_nil in Hk|].
      intros k Hk. simpl in Hk. apply not_elem_of_cons in Hk as [Hne _].
      by apply dict_get_set_ne. }
    destruct v1 as [a|vitems]; [apply Hstep|].
    destruct (dict_get ditems k1) as [sub|] eqn:Hsub.
    + destruct (deep_update sub (Dict vitems)) as [[e1|] sub']; [|apply Hstep].
      intros [= <- <-]. by apply Hstop.
    + destruct (deep_update (Dict []) (Dict vitems)) as [[e1|] sub']; [|apply Hstep].
      intros [= <- <-]. exists ditems, []. split; [done|].
      split; [by rewrite app_nil_r|]. split; [|done].
      intros k Hk. by apply elem_of_nil in Hk.
Qed.

(** Whatever [u] is and whether or not the call raises:
    [deep_update] leaves a [d] that is no mapping as it is; in a mapping
    [d] it keeps every key, in its place, adds only keys of [u], after
    those of [d], and leaves the value of every key that [u] does not
    have untouched. *)
Lemma deep_update_val_keeps_keys d uitems e r :
  deep_update d (Dict uitems) = (e, r) ->
  match d with
  | Atom a => r = Atom a
  | Dict ditems =>
      exists ritems new,
        r = Dict ritems /\
        fst <$> ritems = (fst <$> ditems) ++ new /\
        (forall k, k ∈ new -> k ∈ fst <$> uitems) /\
        (forall k, k ∉ fst <$> uitems -> dict_get ritems k = dict_get ditems k)
  end.
Proof.
  destruct d as [a|ditems].
  - rewrite deep_update_atom. by destruct uitems as [|[k [b|vitems]] rest]; intros [= _ <-].
  - apply deep_update_frame.
Qed.

Lemma deep_update_lookup ditems uitems r :
  NoDup (fst <$> uitems) ->
  deep_update (Dict ditems) (Dict uitems) = (None, r) ->
  exists ritems,
    r = Dict ritems /\
    forall k v, (k, v) ∈ uitems ->
      match v with
      | Atom a => dict_get ritems k = Some (Atom a)
      | Dict _ =>
          exists sub',
            dict_get ritems k = Some sub' /\
            deep_update (default (Dict []) (dict_get ditems k)) v = (None, sub')
      end.
Proof.
  revert ditems. induction uitems as [|[k1 v1] uitems IH]; intros ditems Hnd.
  - rewrite deep_update_nil. intros [= <-]. exists ditems. split; [done|].
    intros k v Hin. by apply elem_of_nil in Hin.
  - rewrite fmap_cons in Hnd. apply NoDup_cons in Hnd as [Hk1 Hnd]. simpl in Hk1.
    rewrite deep_update_cons.
    assert (forall x,
      match v1 with
      | Atom a => x = Atom a
      | Dict _ => deep_update (default (Dict []) (dict_get ditems k1)) v1 = (None, x)
      end ->
      deep_update (Dict (dict_set ditems k1 x)) (Dict uitems) = (None, r) ->
      exists ritems,
        r = Dict ritems /\
        forall k v, (k, v) ∈ (k1, v1) :: uitems ->
          match v with
          | Atom a => dict_get ritems k = Some (Atom a)
          | Dict _ =>
              exists sub',
                dict_get ritems k = Some sub' /\
                deep_update (default (Dict []) (dict_get ditems k)) v = (None, sub')
          end) as Hstep.
    { intros x Hx Hrun.
      destruct (deep_update_frame _ _ _ _ Hrun) as (ritems & _ & -> & _ & _ & Hkeep).
      destruct (IH _ Hnd Hrun) as (ritems' & [= <-] & Hlook).
      exists ritems. split; [done|]. intros k v Hin.
      apply elem_of_cons in Hin as [[= -> ->]|Hin].
      - rewrite (Hkeep _ Hk1), dict_get_set_eq.
        destruct v1 as [a|vitems]; [by rewrite Hx|eauto].
      - assert (k1 <> k) as Hne.
        { intros ->. apply Hk1. apply list_elem_of_fmap. by exists (k, v). }
        specialize (Hlook k v Hin). by rewrite dict_get_set_ne in Hlook. }
    destruct v1 as [a|vitems]; [by apply Hstep|].
    destruct (dict_get ditems k1) as [sub|] eqn:Hsub; simpl in Hstep.
    + destruct (deep_update sub (Dict vitems)) as [[e1|] sub'] eqn:Hin; [done|].
      by apply Hstep.
    + destruct (deep_update (Dict []) (Dict vitems)) as [[e1|] sub'] eqn:Hin; [done|].
      by apply Hstep.
Qed.

Lemma deep_update_append ditems uitems :
  NoDup ((fst <$> ditems) ++ (fst <$> uitems)) ->
  Forall (fun kv => match kv.2 with
                    | Atom _ => True
                    | Dict _ => deep_update (Dict []) kv.2 = (None, kv.2)
                    end) uitems ->
  deep_update (Dict ditems) (Dict uitems) = (None, Dict (ditems ++ uitems)).
Proof.
  intros Hnd Hall. revert ditems Hnd.
  induction Hall as [|[k1 v1] uitems Hv1 _ IH]; intros ditems Hnd.
  - by rewrite deep_update_nil, app_nil_r.
  - assert (dict_get ditems k1 = None) as Hfresh.
    { apply dict_get_None. apply NoDup_app in Hnd as (_ & Hdisj & _).
      intros Hin. apply (Hdisj _ Hin). rewrite fmap_cons. left. }
    assert (NoDup ((fst <$> ditems ++ [(k1, v1)]) ++ (fst <$> uitems))) as Hnd'.
    { rewrite fmap_app, <- app_assoc. done. }
    rewrite deep_update_cons, Hfresh. simpl in Hv1.
    destruct v1 as [a|vitems].
    + rewrite dict_set_fresh by done. rewrite (IH _ Hnd').
      by rewrite <- app_assoc.
    + rewrite Hv1, dict_set_fresh by done. rewrite (IH _ Hnd').
      by rewrite <- app_assoc.
Qed.

(** X8.  Updating an empty mapping with a mapping [u] never raises and
    gives a mapping equal to [u], nested mappings included: the result
    is built from new mappings, with the items of [u] in their order. *)
Theorem deep_update_empty_copies u :
  wf u ->
  match u with
  | Atom _ => True
  | Dict _ => deep_update (Dict []) u = (None, u)
  end.
Proof.
  induction u as [a|uitems IH] using val_ind'; [done|].
  intros Hwf. apply wf_Dict in Hwf as [Hnd Hall].
  apply (deep_update_append [] uitems); [done|].
  apply Forall_forall. intros [k v] Hin. simpl.
  pose proof (proj1 (Forall_forall _ _) IH _ Hin) as IHv.
  pose proof (proj1 (Forall_forall _ _) Hall _ Hin) as Hwfv.
  simpl in *. destruct v; [done|]. by apply IHv.
Qed.

Lemma deep_update_fixed ritems uitems :
  (forall k v, (k, v) ∈ uitems ->
     match v with
     | Atom a => dict_get ritems k = Some (Atom a)
     | Dict _ =>
         exists sub', dict_get ritems k = Some sub' /\
                      deep_update sub' v = (None, sub')
     end) ->
  deep_update (Dict ritems) (Dict uitems) = (None, Dict ritems).
Proof.
  induction uitems as [|[k1 v1] uitems IH]; intros Hfix; [done|].
  rewrite deep_update_cons.
  assert (deep_update (Dict ritems) (Dict uitems) = (None, Dict ritems)) as Hrest.
  { apply IH. intros k v Hin. apply Hfix. by right. }
  specialize (Hfix k1 v1 ltac:(left)). destruct v1 as [a|vitems].
  - by rewrite (dict_set_same _ _ _ Hfix).
  - destruct Hfix as (sub' & Hget & Hsub). rewrite Hget, Hsub.
    by rewrite (dict_set_same _ _ _ Hget).
Qed.

(** [deep_update] is idempotent: when [deep_update(d, u)] returns,
    updating the result with [u] again returns and changes nothing.  (The
    keys of a mapping being distinct.) *)
Lemma deep_update_val_idempotent u :
  wf u ->
  forall d r, deep_update d u = (None, r) -> deep_update r u = (None, r).
Proof.
  induction u as [a|uitems IH] using val_ind'; [done|].
  intros Hwf d r Hrun. apply wf_Dict in Hwf as [Hnd Hall].
  destruct d as [a|ditems].
  - rewrite deep_update_atom in Hrun.
    destruct uitems as [|[k [b|vitems]] rest]; [|done|done].
    by injection Hrun as <-.
  - destruct (deep_update_lookup _ _ _ Hnd Hrun) as (ritems & -> & Hlook).
    apply deep_update_fixed. intros k v Hin. specialize (Hlook k v Hin).
    destruct v as [a|vitems]; [done|].
    destruct Hlook as (sub' & Hget & Hsub). exists sub'. split; [done|].
    pose proof (proj1 (Forall_forall _ _) IH _ Hin) as IHv.
    pose proof (proj1 (Forall_forall _ _) Hall _ Hin) as Hwfv.
    simpl in IHv, Hwfv. by apply (IHv Hwfv _ _ Hsub).
Qed.

(** X10.  Where [d] holds a value that is no mapping and [u] holds a
    mapping: an empty mapping in [u] leaves the value of [d] in place (a
    missing key gets a new empty mapping instead); a non-empty one makes
    [deep_update] raise, [TypeError] if its first value is no mapping and
    [AttributeError] if it is one, with [d] unchanged and the items of
    [u] that follow not applied. *)
Theorem deep_update_over_non_mapping ditems k (a : A) uitems :
  dict_get ditems k = Some (Atom a) ->
  deep_update (Dict ditems) (Dict ((k, Dict []) :: uitems))
    = deep_update (Dict ditems) (Dict uitems) /\
  (forall k' b rest,
     deep_update (Dict ditems) (Dict ((k, Dict ((k', Atom b) :: rest)) :: uitems))
       = (Some (Exn (OtherError "TypeError") ""), Dict ditems)) /\
  (forall k' inner rest,
     deep_update (Dict ditems) (Dict ((k, Dict ((k', Dict inner) :: rest)) :: uitems))
       = (Some (Exn AttributeError ""), Dict ditems)) /\
  (forall k0, dict_get ditems k0 = None ->
     deep_update (Dict ditems) (Dict [(k0, Dict [])])
       = (None, Dict (ditems ++ [(k0, Dict [])]))).
Proof.
  intros Hget. split; [|split; [|split]].
  - rewrite deep_update_cons, Hget, deep_update_nil.
    by rewrite (dict_set_same _ _ _ Hget).
  - intros k' b rest. rewrite deep_update_cons, Hget, deep_update_atom.
    by rewrite (dict_set_same _ _ _ Hget).
  - intros k' inner rest. rewrite deep_update_cons, Hget, deep_update_atom.
    by rewrite (dict_set_same _ _ _ Hget).
  - intros k0 Hnone. rewrite deep_update_cons, Hnone, deep_update_nil.
    by rewrite deep_update_nil, dict_set_fresh.
Qed.

Lemma fits_Dict ditems uitems :
  fits (Dict ditems) (Dict uitems) <->
  Forall (fun kv => match kv.2 with
                    | Atom _ => True
                    | Dict _ => fits (default (Dict []) (dict_get ditems kv.1)) kv.2
                    end) uitems.
Proof.
  assert (forall l,
    (fix all (uitems : list (string * val A)) : Prop :=
       match uitems with
       | [] => True
       | (k, v) :: rest =>
           match v with
           | Atom _ => True
           | Dict _ => fits (default (Dict []) (dict_get ditems k)) v
           end /\ all rest
       end) l <->
    Forall (fun kv => match kv.2 with
                      | Atom _ => True
                      | Dict _ => fits (default (Dict []) (dict_get ditems kv.1)) kv.2
                      end) l) as Hall.
  { induction l as [|[k v] l IH].
    - split; [constructor|done].
    - rewrite Forall_cons, <- IH. done. }
  destruct uitems as [|kv uitems]; [split; [constructor|done]|].
  exact (Hall (kv :: uitems)).
Qed.

Lemma fits_atom (a : A) uitems : fits (Atom a) (Dict uitems) <-> uitems = [].
Proof. by destruct uitems. Qed.

Lemma deep_update_returns_iff_fits_items ditems uitems :
  NoDup (fst <$> uitems) ->
  Forall (fun kv => forall d, fst (deep_update d kv.2) = None <-> fits d kv.2)
         uitems ->
  fst (deep_update (Dict ditems) (Dict uitems)) = None <->
  fits (Dict ditems) (Dict uitems).
Proof.
  rewrite fits_Dict. intros Hnd Hrec. revert ditems Hnd.
  induction Hrec as [|[k1 v1] uitems Hv1 _ IH]; intros ditems Hnd.
  - split; [constructor|done].
  - rewrite fmap_cons in Hnd. apply NoDup_cons in Hnd as [Hk1 Hnd]. simpl in Hk1, Hv1.
    assert (forall x,
      Forall (fun kv => match kv.2 with
                        | Atom _ => True
                        | Dict _ => fits (default (Dict []) (dict_get (dict_set ditems k1 x) kv.1)) kv.2
                        end) uitems <->
      Forall (fun kv => match kv.2 with
                        | Atom _ => True
                        | Dict _ => fits (default (Dict []) (dict_get ditems kv.1)) kv.2
                        end) uitems) as Hsame.
    { intros x. rewrite !Forall_forall. split; intros Hall [k v] Hin;
        specialize (Hall (k, v) Hin); cbn [fst snd] in *;
        (assert (k1 <> k) as Hne
           by (intros ->; apply Hk1, list_elem_of_fmap; by exists (k, v)));
        by rewrite dict_get_set_ne in *. }
    rewrite deep_update_cons, Forall_cons. cbn [fst snd].
    destruct v1 as [a|vitems].
    + rewrite (IH _ Hnd), Hsame. tauto.
    + destruct (dict_get ditems k1) as [sub|] eqn:Hsub; cbn [default from_option id].
      * specialize (Hv1 sub).
        destruct (deep_update sub (Dict vitems)) as [[e1|] sub'] eqn:Hin.
        -- split; [done|]. intros [Hfit _]. by apply Hv1 in Hfit.
        -- rewrite (IH _ Hnd), Hsame. split; [|tauto].
           intros Hall. split; [by apply Hv1|done].
      * specialize (Hv1 (Dict [])).
        destruct (deep_update (Dict []) (Dict vitems)) as [[e1|] sub'] eqn:Hin.
        -- split; [done|]. intros [Hfit _]. by apply Hv1 in Hfit.
        -- rewrite (IH _ Hnd), Hsame. split; [|tauto].
           intros Hall. split; [by apply Hv1|done].
Qed.

(** [deep_update(d, u)] with a mapping [u] returns if [d] has a
    mapping, or no item, wherever [u] has a non-empty mapping, at every
    depth, and raises if not: if somewhere a non-empty mapping of [u]
    meets a value of [d] that is no mapping. *)
Lemma deep_update_val_returns_iff_fits u :
  wf u -> forall d, fst (deep_update d u) = None <-> fits d u.
Proof.
  induction u as [a|uitems IH] using val_ind'; [done|].
  intros Hwf d. apply wf_Dict in Hwf as [Hnd Hall].
  destruct d as [a|ditems].
  - rewrite deep_update_atom, fits_atom.
    by destruct uitems as [|[k [b|vitems]] rest].
  - apply deep_update_returns_iff_fits_items; [done|].
    apply Forall_forall. intros kv Hin d.
    apply (proj1 (Forall_forall _ _) IH kv Hin).
    apply (proj1 (Forall_forall _ _) Hall kv Hin).
Qed.

End DeepUpdate.

(** ** [deep_update] on objects *)

Section DeepUpdateStore.
Import DeepUpdateStore.
Context {A : Type}.

Local Abbreviation val := (DeepUpdate.val A).
Local Abbreviation Atom := (@DeepUpdate.Atom A).
Local Abbreviation Dict := (@DeepUpdate.Dict A).
Local Abbreviation dict_get := (@DeepUpdate.dict_get A).
Local Abbreviation dict_set := (@DeepUpdate.dict_set A).

Implicit Types (h : store A) (r d u x sub : ref A) (t td tu tx : val)
  (items ditems uitems pre post : dict A)
  (titems tditems tuitems tpre tpost : list (string * val))
  (l ld lu : nat) (k : string).

Lemma repr_Dict h r titems :
  repr h r (Dict titems) <->
  exists l items, r = Ptr l /\ h !! l = Some items /\ items_repr h items titems.
Proof.
  assert (forall items,
    (fix all (items : dict A) (titems : list (string * val)) {struct titems} : Prop :=
       match items, titems with
       | [], [] => True
       | (k, r') :: items', (k', t') :: titems' =>
           k = k' /\ repr h r' t' /\ all items' titems'
       | _, _ => False
       end) items titems <-> items_repr h items titems) as Hall.
  { unfold items_repr. induction titems as [|[k' t'] titems IH]; intros [|[k1 r1] items].
    - split; [constructor|done].
    - split; [done|]. intros H. inversion H.
    - split; [done|]. intros H. inversion H.
    - rewrite IH. split.
      + intros (-> & Hr & Hrest). by constructor.
      + intros H. inversion H as [|? ? ? ? [Hk Hr] Hrest]; subst. simpl in Hk. by subst. }
  simpl. destruct r as [a|l].
  - split; [done|]. by intros (l & items & [=] & _).
  - destruct (h !! l) as [items|] eqn:Hl.
    + rewrite Hall. split.
      * intros Hi. by exists l, items.
      * intros (l' & items' & [= <-] & Hl' & Hi). by assert (items' = items) as -> by congruence.
    + split; [done|]. intros (l' & items' & [= <-] & Hl' & _). congruence.
Qed.

Lemma footprint_Dict h l items titems :
  h !! l = Some items ->
  footprint h (Ptr l) (Dict titems) = l :: items_footprint h items titems.
Proof.
  intros Hl. simpl. rewrite Hl. f_equal. unfold items_footprint.
  clear Hl. revert items. induction titems as [|[k' t'] titems IH]; intros [|[k1 r1] items]; try done.
  simpl. by rewrite IH.
Qed.

Lemma footprint_Atom h r a : footprint h r (Atom a) = [].
Proof. done. Qed.

Lemma footprint_Obj h a t : footprint h (Obj a) t = [].
Proof. by destruct t. Qed.

Lemma items_repr_length h items titems :
  items_repr h items titems -> length items = length titems.
Proof. apply Forall2_length. Qed.

Lemma items_footprint_app h pre post tpre tpost :
  length pre = length tpre ->
  items_footprint h (pre ++ post) (tpre ++ tpost)
  = items_footprint h pre tpre ++ items_footprint h post tpost.
Proof.
  intros Hlen. unfold items_footprint.
  by rewrite zip_with_app, concat_app.
Qed.

Lemma items_footprint_cons h k x items k' t titems :
  items_footprint h ((k, x) :: items) ((k', t) :: titems)
  = footprint h x t ++ items_footprint h items titems.
Proof. done. Qed.

Lemma items_footprint_middle h pre post tpre tpost k x t :
  length pre = length tpre ->
  items_footprint h (pre ++ [(k, x)] ++ post) (tpre ++ [(k, t)] ++ tpost)
  = items_footprint h pre tpre ++ footprint h x t ++ items_footprint h post tpost.
Proof. intros Hlen. by rewrite items_footprint_app. Qed.

(** Values that the changes of a store do not meet are as they were. *)
Lemma items_frame h h' items titems :
  Forall (fun kt => forall r, repr h r kt.2 ->
            (forall l, l ∈ footprint h r kt.2 -> h' !! l = h !! l) ->
            repr h' r kt.2 /\ footprint h' r kt.2 = footprint h r kt.2) titems ->
  items_repr h items titems ->
  (forall l, l ∈ items_footprint h items titems -> h' !! l = h !! l) ->
  items_repr h' items titems /\
  items_footprint h' items titems = items_footprint h items titems.
Proof.
  intros Hrec Hrep. revert Hrec.
  induction Hrep as [|[k x] [k' t] items titems [Hk Hx] Hrep IH]; intros Hrec Hsame.
  - split; [constructor|done].
  - simpl in Hk, Hx. subst k'. apply Forall_cons in Hrec as [Hrec1 Hrec].
    rewrite !items_footprint_cons in *.
    destruct (Hrec1 x Hx) as [Hx' Hfx].
    { intros l Hl. apply Hsame, elem_of_app. by left. }
    destruct (IH Hrec) as [Hrep' Hfi].
    { intros l Hl. apply Hsame, elem_of_app. by right. }
    split; [by constructor|]. simpl in Hfx. by rewrite Hfx, Hfi.
Qed.

Lemma repr_frame h h' t :
  forall r, repr h r t ->
    (forall l, l ∈ footprint h r t -> h' !! l = h !! l) ->
    repr h' r t /\ footprint h' r t = footprint h r t.
Proof.
  induction t as [a|titems IH] using val_ind'; intros r Hr Hsame; [done|].
  apply repr_Dict in Hr as (l & items & -> & Hl & Hi).
  rewrite (footprint_Dict _ _ _ _ Hl) in *.
  assert (h' !! l = Some items) as Hl'.
  { rewrite <- Hl. apply Hsame. by left. }
  destruct (items_frame h h' items titems IH Hi) as [Hi' Hf].
  { intros l' Hl'0. apply Hsame. by right. }
  split.
  - apply repr_Dict. by exists l, items.
  - by rewrite (footprint_Dict _ _ _ _ Hl'), Hf.
Qed.

Lemma items_repr_frame h h' items titems :
  items_repr h items titems ->
  (forall l, l ∈ items_footprint h items titems -> h' !! l = h !! l) ->
  items_repr h' items titems /\
  items_footprint h' items titems = items_footprint h items titems.
Proof.
  apply items_frame. apply Forall_forall. intros kt _ r. apply repr_frame.
Qed.

Lemma items_footprint_lt h items titems :
  Forall (fun kt => forall r, repr h r kt.2 ->
            forall l, l ∈ footprint h r kt.2 -> (l < length h)%nat) titems ->
  items_repr h items titems ->
  forall l, l ∈ items_footprint h items titems -> (l < length h)%nat.
Proof.
  intros Hrec Hrep. revert Hrec.
  induction Hrep as [|[k x] [k' t] items titems [Hk Hx] Hrep IH]; intros Hrec l Hl.
  - by apply elem_of_nil in Hl.
  - apply Forall_cons in Hrec as [Hrec1 Hrec].
    rewrite items_footprint_cons in Hl. apply elem_of_app in Hl as [Hl|Hl].
    + by apply (Hrec1 x Hx).
    + by apply IH.
Qed.

Lemma footprint_lt h t :
  forall r, repr h r t -> forall l, l ∈ footprint h r t -> (l < length h)%nat.
Proof.
  induction t as [a|titems IH] using val_ind'; intros r Hr l0 Hl0.
  - by apply elem_of_nil in Hl0.
  - apply repr_Dict in Hr as (l & items & -> & Hl & Hi).
    rewrite (footprint_Dict _ _ _ _ Hl) in Hl0.
    apply elem_of_cons in Hl0 as [->|Hl0].
    + by apply lookup_lt_Some in Hl.
    + by apply (items_footprint_lt h items titems IH Hi).
Qed.

Lemma items_footprint_bound h items titems :
  items_repr h items titems ->
  forall l, l ∈ items_footprint h items titems -> (l < length h)%nat.
Proof.
  apply items_footprint_lt. apply Forall_forall. intros kt _ r. apply footprint_lt.
Qed.


Lemma items_footprint_lookup h items titems i k x t :
  items_repr h items titems ->
  items !! i = Some (k, x) -> titems !! i = Some (k, t) ->
  forall l, l ∈ footprint h x t -> l ∈ items_footprint h items titems.
Proof.
  intros Hrep. revert i.
  induction Hrep as [|[k1 x1] [k1' t1] items titems _ Hrep IH]; intros i Hi Hti l Hl.
  - done.
  - rewrite items_footprint_cons. apply elem_of_app. destruct i as [|i]; simpl in *.
    + injection Hi as -> ->. injection Hti as -> ->. by left.
    + right. by apply (IH i).
Qed.

(** [d.get(k)] and [d[k] = x] find in the items of a mapping what they
    find in the items of the value it stands for. *)
Lemma items_repr_get h items titems k :
  items_repr h items titems ->
  match get items k, dict_get titems k with
  | Some x, Some t =>
      exists pre post tpre tpost,
        items = pre ++ [(k, x)] ++ post /\ titems = tpre ++ [(k, t)] ++ tpost /\
        items_repr h pre tpre /\ repr h x t /\ items_repr h post tpost /\
        (forall y, set items k y = pre ++ (k, y) :: post) /\
        (forall ty, dict_set titems k ty = tpre ++ (k, ty) :: tpost)
  | None, None =>
      (forall y, set items k y = items ++ [(k, y)]) /\
      (forall ty, dict_set titems k ty = titems ++ [(k, ty)])
  | _, _ => False
  end.
Proof.
  intros Hrep.
  induction Hrep as [|[k1 x1] [k1' t1] items titems [Hk Hx] Hrep IH]; [done|].
  simpl in Hk, Hx. subst k1'. simpl.
  destruct (decide (k1 = k)) as [->|Hne].
  - exists [], items, [], titems. repeat split; [constructor|done|done].
  - destruct (get items k) as [x|], (dict_get titems k) as [t|]; try done.
    + destruct IH as (pre & post & tpre & tpost & -> & -> & Hpre & Hxt & Hpost & Hset & Htset).
      exists ((k1, x1) :: pre), post, ((k1, t1) :: tpre), tpost.
      repeat split; try done.
      * by constructor.
      * intros y. simpl. f_equal. apply Hset.
      * intros ty. simpl. f_equal. apply Htset.
    + destruct IH as [Hset Htset]. split.
      * intros y. f_equal. apply Hset.
      * intros ty. f_equal. apply Htset.
Qed.

Lemma set_same items k x : get items k = Some x -> set items k x = items.
Proof.
  induction items as [|[k' x'] items IH]; simpl; [done|].
  destruct (decide (k' = k)) as [->|Hne].
  - by intros [= ->].
  - intros Hget. by rewrite IH.
Qed.

Lemma get_set_eq items k x : get (set items k x) k = Some x.
Proof.
  induction items as [|[k' x'] items IH]; simpl.
  - by rewrite decide_True.
  - destruct (decide (k' = k)) as [->|Hne]; simpl.
    + by rewrite decide_True.
    + by rewrite decide_False.
Qed.

Lemma setitem_same h l items k x :
  h !! l = Some items -> get items k = Some x -> setitem h l k x = h.
Proof.
  intros Hl Hget. apply list_eq. intros j. unfold setitem.
  rewrite list_lookup_alter. destruct (decide (l = j)) as [<-|Hne]; [|done].
  rewrite Hl. simpl. by rewrite set_same.
Qed.

Lemma updates_refl h d td :
  repr h d td -> NoDup (footprint h d td) -> updates h d td h td.
Proof. intros Hr Hnd. repeat split; try done. intros l Hl. by left. Qed.

Lemma updates_trans h d td h1 td1 h2 td2 :
  updates h d td h1 td1 -> updates h1 d td1 h2 td2 -> updates h d td h2 td2.
Proof.
  intros (Hr1 & Hnd1 & Hlen1 & Hsub1 & Hfr1) (Hr2 & Hnd2 & Hlen2 & Hsub2 & Hfr2).
  repeat split; try done.
  - lia.
  - intros l Hl. destruct (Hsub2 l Hl) as [Hl1|Hge]; [|right; lia].
    apply Hsub1, Hl1.
  - intros l Hlt Hout. rewrite Hfr2, Hfr1; [done..|lia|].
    intros Hl1. destruct (Hsub1 l Hl1) as [Hl0|Hge]; [done|lia].
Qed.

(** A store that has only grown: new mappings that nothing refers to. *)
Lemma updates_grown h d td h1 :
  (length h <= length h1)%nat ->
  (forall l, (l < length h)%nat -> h1 !! l = h !! l) ->
  repr h d td -> NoDup (footprint h d td) -> updates h d td h1 td.
Proof.
  intros Hlen Hsame Hr Hnd.
  destruct (repr_frame h h1 td d Hr) as [Hr1 Hf1].
  { intros l Hl. apply Hsame. by apply (footprint_lt h td d). }
  repeat split; try done.
  - by rewrite Hf1.
  - intros l. rewrite Hf1. by left.
  - intros l Hlt _. by apply Hsame.
Qed.

Lemma updates_separate h d td u tu h' td' :
  separate h d td u tu -> updates h d td h' td' ->
  separate h' d td' u tu /\ footprint h' u tu = footprint h u tu /\
  (forall l, l ∈ footprint h u tu -> h' !! l = h !! l).
Proof.
  intros (Hd & Hu & Hnd & Hdis) (Hr' & Hnd' & Hlen & Hsub & Hfr).
  rewrite Forall_forall in Hdis.
  assert (forall l, l ∈ footprint h u tu -> h' !! l = h !! l) as Hsame.
  { intros l Hl. apply Hfr; [by apply (footprint_lt h tu u)|].
    intros Hld. by apply (Hdis l Hld). }
  destruct (repr_frame h h' tu u Hu Hsame) as [Hu' Hfu].
  split; [|done]. repeat split; try done.
  apply Forall_forall. intros l Hl. rewrite Hfu.
  destruct (Hsub l Hl) as [Hl0|Hge]; [by apply Hdis|].
  intros Hlu. apply (footprint_lt h tu u Hu) in Hlu. lia.
Qed.

Lemma NoDup_replace (n l : nat) (P X X' Q : list nat) :
  NoDup (l :: P ++ X ++ Q) ->
  (forall a, a ∈ l :: P ++ X ++ Q -> (a < n)%nat) ->
  NoDup X' ->
  (forall a, a ∈ X' -> a ∈ X \/ (n <= a)%nat) ->
  NoDup (l :: P ++ X' ++ Q).
Proof.
  intros Hnd Hlt HX' Hsub.
  apply NoDup_cons in Hnd as [Hl Hnd].
  apply NoDup_app in Hnd as (HP & HPXQ & Hnd).
  apply NoDup_app in Hnd as (HX & HXQ & HQ).
  assert (forall a, a ∈ X' -> (a < n)%nat -> a ∈ X) as Hin.
  { intros a Ha Han. destruct (Hsub a Ha) as [?|?]; [done|lia]. }
  apply NoDup_cons. split.
  - intros Hl'. apply elem_of_app in Hl' as [Hl'|Hl'].
    { apply Hl, elem_of_app. by left. }
    apply elem_of_app in Hl' as [Hl'|Hl'].
    + apply Hl, elem_of_app. right. apply elem_of_app. left.
      apply Hin; [done|]. apply Hlt. by left.
    + apply Hl, elem_of_app. right. apply elem_of_app. by right.
  - apply NoDup_app. split; [done|]. split.
    + intros a HaP Ha. apply (HPXQ a HaP).
      apply elem_of_app in Ha as [Ha|Ha]; apply elem_of_app; [left|by right].
      apply Hin; [done|]. apply Hlt. right. apply elem_of_app. by left.
    + apply NoDup_app. split; [done|]. split; [|done].
      intros a Ha HaQ. apply (HXQ a); [|done].
      apply Hin; [done|]. apply Hlt. right. apply elem_of_app. right.
      apply elem_of_app. by right.
Qed.

(** Putting [x] under [k] in the mapping at [ld], where [mid] is the
    item under [k] before, if any: the other items are not met by what
    has changed under [k]. *)
Lemma updates_replace h h1 h2 ld pre mid post tpre tmid tpost k x tx :
  h !! ld = Some (pre ++ mid ++ post) ->
  items_repr h pre tpre -> items_repr h mid tmid -> items_repr h post tpost ->
  NoDup (footprint h (Ptr ld) (Dict (tpre ++ tmid ++ tpost))) ->
  (length h <= length h1)%nat ->
  (forall l, (l < length h)%nat -> l ∉ items_footprint h mid tmid ->
     h1 !! l = h !! l) ->
  repr h1 x tx -> NoDup (footprint h1 x tx) ->
  (forall l, l ∈ footprint h1 x tx ->
     l ∈ items_footprint h mid tmid \/ (length h <= l)%nat) ->
  length h2 = length h1 ->
  h2 !! ld = Some (pre ++ (k, x) :: post) ->
  (forall l, l <> ld -> h2 !! l = h1 !! l) ->
  updates h (Ptr ld) (Dict (tpre ++ tmid ++ tpost))
          h2 (Dict (tpre ++ (k, tx) :: tpost)).
Proof.
  intros Hld Hpre Hmid Hpost Hnd Hlen Hfr Hx HndX Hsub Hlen2 Hld2 Hoth.
  pose proof (items_repr_length _ _ _ Hpre) as Lpre.
  pose proof (items_repr_length _ _ _ Hmid) as Lmid.
  assert (footprint h (Ptr ld) (Dict (tpre ++ tmid ++ tpost))
          = ld :: items_footprint h pre tpre ++ items_footprint h mid tmid
                  ++ items_footprint h post tpost) as Hf0.
  { rewrite (footprint_Dict _ _ _ _ Hld).
    by rewrite !items_footprint_app. }
  rewrite Hf0 in *.
  set (P := items_footprint h pre tpre) in *.
  set (X := items_footprint h mid tmid) in *.
  set (Q := items_footprint h post tpost) in *.
  assert (forall a, a ∈ ld :: P ++ X ++ Q -> (a < length h)%nat) as Hbound.
  { intros a Ha. apply elem_of_cons in Ha as [->|Ha]; [by apply lookup_lt_Some in Hld|].
    apply elem_of_app in Ha as [Ha|Ha]; [by apply (items_footprint_bound h pre tpre)|].
    apply elem_of_app in Ha as [Ha|Ha]; [by apply (items_footprint_bound h mid tmid)|].
    by apply (items_footprint_bound h post tpost). }
  pose proof Hnd as Hnd0.
  apply NoDup_cons in Hnd0 as [HldX Hnd0].
  apply NoDup_app in Hnd0 as (_ & HPXQ & Hnd0).
  apply NoDup_app in Hnd0 as (_ & HXQ & _).
  assert (forall l, l ∈ P -> h2 !! l = h !! l) as HsameP.
  { intros l Hl. rewrite Hoth, Hfr; [done| | |].
    - apply Hbound. right. apply elem_of_app. by left.
    - intros HlX. apply (HPXQ l Hl). apply elem_of_app. by left.
    - intros ->. apply HldX. apply elem_of_app. by left. }
  assert (forall l, l ∈ Q -> h2 !! l = h !! l) as HsameQ.
  { intros l Hl. rewrite Hoth, Hfr; [done| | |].
    - apply Hbound. right. apply elem_of_app. right. apply elem_of_app. by right.
    - intros HlX. by apply (HXQ l HlX).
    - intros ->. apply HldX. apply elem_of_app. right. apply elem_of_app. by right. }
  destruct (items_repr_frame h h2 pre tpre Hpre HsameP) as [Hpre2 HfP].
  destruct (items_repr_frame h h2 post tpost Hpost HsameQ) as [Hpost2 HfQ].
  destruct (repr_frame h1 h2 tx x Hx) as [Hx2 HfX].
  { intros l Hl. apply Hoth. intros ->.
    destruct (Hsub ld Hl) as [HlX|Hge].
    - apply HldX. apply elem_of_app. right. apply elem_of_app. by left.
    - apply lookup_lt_Some in Hld. lia. }
  assert (footprint h2 (Ptr ld) (Dict (tpre ++ (k, tx) :: tpost))
          = ld :: P ++ footprint h1 x tx ++ Q) as Hf2.
  { rewrite (footprint_Dict _ _ _ _ Hld2).
    rewrite items_footprint_app by done. rewrite items_footprint_cons.
    by rewrite HfP, HfQ, HfX. }
  unfold updates. rewrite Hf2, Hf0. repeat split.
  - apply repr_Dict. exists ld, (pre ++ (k, x) :: post). repeat split; [done|].
    apply Forall2_app; [done|]. by constructor.
  - by apply (NoDup_replace (length h) ld P X).
  - lia.
  - intros l Hl. apply elem_of_cons in Hl as [->|Hl]; [left; by left|].
    apply elem_of_app in Hl as [Hl|Hl].
    { left. right. apply elem_of_app. by left. }
    apply elem_of_app in Hl as [Hl|Hl].
    + destruct (Hsub l Hl) as [HlX|Hge]; [|by right].
      left. right. apply elem_of_app. right. apply elem_of_app. by left.
    + left. right. apply elem_of_app. right. apply elem_of_app. by right.
  - intros l Hlt Hout. rewrite Hoth, Hfr; [done|done| |].
    + intros HlX. apply Hout. right. apply elem_of_app. right.
      apply elem_of_app. by left.
    + intros ->. apply Hout. by left.
Qed.


(** [d[k] = x] after a call that changed at most what [d] held under
    [k]. *)
Lemma updates_setitem h h1 ld ditems tditems k x tx :
  h !! ld = Some ditems -> items_repr h ditems tditems ->
  NoDup (footprint h (Ptr ld) (Dict tditems)) ->
  (length h <= length h1)%nat ->
  (forall l, (l < length h)%nat ->
     l ∉ match get ditems k, dict_get tditems k with
         | Some sub, Some tsub => footprint h sub tsub
         | _, _ => []
         end -> h1 !! l = h !! l) ->
  repr h1 x tx -> NoDup (footprint h1 x tx) ->
  (forall l, l ∈ footprint h1 x tx ->
     l ∈ match get ditems k, dict_get tditems k with
         | Some sub, Some tsub => footprint h sub tsub
         | _, _ => []
         end \/ (length h <= l)%nat) ->
  updates h (Ptr ld) (Dict tditems) (setitem h1 ld k x)
          (Dict (dict_set tditems k tx)).
Proof.
  intros Hld Hrep Hnd Hlen Hfr Hx HndX Hsub.
  assert (h1 !! ld = Some ditems) as Hld1.
  { rewrite <- Hld. apply Hfr; [by apply lookup_lt_Some in Hld|].
    rewrite (footprint_Dict _ _ _ _ Hld) in Hnd. apply NoDup_cons in Hnd as [Hout _].
    intros Hin. apply Hout. clear Hout Hfr Hsub.
    pose proof (items_repr_get h ditems tditems k Hrep) as Hget.
    destruct (get ditems k) as [sub|], (dict_get tditems k) as [tsub|];
      try by apply elem_of_nil in Hin.
    destruct Hget as (pre & post & tpre & tpost & -> & -> & Hpre & _).
    rewrite items_footprint_middle by (by apply items_repr_length in Hpre).
    apply elem_of_app. right. apply elem_of_app. by left. }
  assert (setitem h1 ld k x !! ld = Some (set ditems k x)) as Hld2.
  { unfold setitem. rewrite list_lookup_alter, decide_True by done. by rewrite Hld1. }
  assert (forall l, l <> ld -> setitem h1 ld k x !! l = h1 !! l) as Hoth.
  { intros l Hne. unfold setitem. by rewrite list_lookup_alter_ne. }
  assert (length (setitem h1 ld k x) = length h1) as Hlen2.
  { unfold setitem. by rewrite length_alter. }
  pose proof (items_repr_get h ditems tditems k Hrep) as Hget.
  destruct (get ditems k) as [sub|], (dict_get tditems k) as [tsub|]; try done.
  - destruct Hget as (pre & post & tpre & tpost & -> & -> & Hpre & Hxt & Hpost & Hset & Htset).
    rewrite Htset. rewrite Hset in Hld2.
    assert (items_footprint h [(k, sub)] [(k, tsub)] = footprint h sub tsub) as HX.
    { rewrite items_footprint_cons. apply app_nil_r. }
    apply (updates_replace h h1 _ ld pre [(k, sub)] post tpre [(k, tsub)] tpost k x tx);
      try done.
    + constructor; [done|constructor].
    + by rewrite HX.
    + by rewrite HX.
  - destruct Hget as [Hset Htset].
    rewrite Htset. rewrite Hset in Hld2.
    replace (Dict tditems) with (Dict (tditems ++ [] ++ [])) in * by (by rewrite app_nil_r).
    replace (ditems ++ [(k, x)]) with (ditems ++ (k, x) :: []) in Hld2 by done.
    apply (updates_replace h h1 _ ld ditems [] [] tditems [] [] k x tx); try done.
    + by rewrite !app_nil_r.
    + constructor.
    + constructor.
Qed.

Lemma items_loop_unfold inner lu size d todo i h :
  items_loop inner lu size d todo i h =
  match h !! lu with
  | None => None
  | Some uitems =>
      if negb (length uitems =? size)%nat then Some (Some RuntimeError, h)
      else
        match uitems !! i, todo with
        | None, _ => Some (None, h)
        | Some _, O => None
        | Some (k, v), S todo' =>
            match v, d with
            | Ptr _, Obj _ => Some (Some AttributeError, h)
            | Ptr _, Ptr ld =>
                match h !! ld with
                | None => None
                | Some ditems =>
                    match get ditems k with
                    | Some sub =>
                        match inner h sub v with
                        | Some (None, h1) =>
                            items_loop inner lu size d todo' (S i)
                                       (setitem h1 ld k sub)
                        | other => other
                        end
                    | None =>
                        match inner (h ++ [[]]) (Ptr (length h)) v with
                        | Some (None, h1) =>
                            items_loop inner lu size d todo' (S i)
                                       (setitem h1 ld k (Ptr (length h)))
                        | other => other
                        end
                    end
                end
            | Obj _, Obj _ => Some (Some TypeError, h)
            | Obj _, Ptr ld =>
                items_loop inner lu size d todo' (S i) (setitem h ld k v)
            end
        end
  end.
Proof. by destruct todo. Qed.

Lemma separate_child h d td u tu sub tsub v tv :
  separate h d td u tu ->
  repr h sub tsub -> repr h v tv ->
  NoDup (footprint h sub tsub) ->
  (forall l, l ∈ footprint h sub tsub -> l ∈ footprint h d td) ->
  (forall l, l ∈ footprint h v tv -> l ∈ footprint h u tu) ->
  separate h sub tsub v tv.
Proof.
  intros (_ & _ & _ & Hdis) Hsub Hv Hnd Hin Hinv. rewrite Forall_forall in Hdis.
  repeat split; try done. apply Forall_forall. intros l Hl Hlv.
  apply (Hdis l); [by apply Hin|by apply Hinv].
Qed.

(** The loop of [deep_update(d, u)] from item [i] of [u] on does to [d]
    what the items of [u] from [i] on do to the value of [d]. *)
Lemma items_loop_refines inner lu uitems tuitems d :
  Forall (fun kt => refines inner kt.2) tuitems ->
  forall todo i h td,
    (todo + i = length tuitems)%nat ->
    h !! lu = Some uitems ->
    separate h d td (Ptr lu) (Dict tuitems) ->
    exists h',
      items_loop inner lu (length uitems) d todo i h
        = Some (fst (DeepUpdate.deep_update td (Dict (drop i tuitems))), h') /\
      updates h d td h' (snd (DeepUpdate.deep_update td (Dict (drop i tuitems)))).
Proof.
  intros Hrec. induction todo as [|todo IH]; intros i h td Hi Hlu Hsep.
  - pose proof Hsep as (Hd & Hu & Hnd & Hdis).
    apply repr_Dict in Hu as (lu' & uitems' & [= <-] & Hlu' & Hrep).
    assert (uitems' = uitems) as -> by congruence.
    pose proof (items_repr_length _ _ _ Hrep) as Hlen.
    rewrite items_loop_unfold, Hlu, Nat.eqb_refl. simpl negb. cbv iota.
    rewrite lookup_ge_None_2 by lia. rewrite drop_ge by lia.
    exists h. split; [done|]. by apply updates_refl.
  - pose proof Hsep as (Hd & Hu & Hnd & Hdis).
    apply repr_Dict in Hu as (lu' & uitems' & [= <-] & Hlu' & Hrep).
    assert (uitems' = uitems) as -> by congruence. clear Hlu'.
    pose proof (items_repr_length _ _ _ Hrep) as Hlen.
    destruct (lookup_lt_is_Some_2 uitems i) as [[k v] Hkv]; [lia|].
    destruct (Forall2_lookup_l _ _ _ _ _ Hrep Hkv) as ([k' tv] & Htkv & Hk & Hv).
    simpl in Hk, Hv. subst k'.
    pose proof (Forall_lookup_1 _ _ _ _ Hrec Htkv) as Hinner. simpl in Hinner.
    assert (forall l, l ∈ footprint h v tv ->
                      l ∈ footprint h (Ptr lu) (Dict tuitems)) as Hvu.
    { intros l Hl. rewrite (footprint_Dict _ _ _ _ Hlu). right.
      by apply (items_footprint_lookup h uitems tuitems i k v tv). }
    rewrite (drop_S _ _ _ Htkv), deep_update_cons.
    rewrite items_loop_unfold, Hlu, Nat.eqb_refl, Hkv. simpl negb. cbv iota.
    (* the rest of the loop, after the first item *)
    assert (forall h2 td2, updates h d td h2 td2 ->
      exists h',
        items_loop inner lu (length uitems) d todo (S i) h2
          = Some (fst (DeepUpdate.deep_update td2 (Dict (drop (S i) tuitems))), h') /\
        updates h d td h' (snd (DeepUpdate.deep_update td2 (Dict (drop (S i) tuitems)))))
      as Hcont.
    { intros h2 td2 Hup.
      destruct (updates_separate _ _ _ _ _ _ _ Hsep Hup) as (Hsep2 & _ & Hsame).
      destruct (IH (S i) h2 td2) as (h' & Hrun & Hup'); [lia| |done|].
      - rewrite <- Hlu. apply Hsame. rewrite (footprint_Dict _ _ _ _ Hlu). by left.
      - exists h'. split; [done|]. by apply (updates_trans _ _ _ h2 td2). }
    destruct tv as [a|tvitems].
    + (* d[k] = u[k] *)
      simpl in Hv. subst v.
      destruct td as [b|tditems].
      * simpl in Hd. subst d. exists h. split; [done|]. by apply updates_refl.
      * apply repr_Dict in Hd as (ld & ditems & -> & Hld & Hdrep).
        apply Hcont.
        apply (updates_setitem h h ld ditems tditems k (Obj a) (Atom a)); try done.
        -- apply NoDup_nil_2.
        -- intros l Hl. by apply elem_of_nil in Hl.
    + (* d[k] = deep_update(d.get(k, {}), v) *)
      pose proof Hv as Hv'.
      apply repr_Dict in Hv' as (lv & vitems & -> & Hlv & Hvrep).
      destruct td as [b|tditems].
      * simpl in Hd. subst d. exists h. split; [done|]. by apply updates_refl.
      * apply repr_Dict in Hd as (ld & ditems & -> & Hld & Hdrep).
        rewrite Hld.
        pose proof (items_repr_get h ditems tditems k Hdrep) as Hget.
        pose proof (updates_setitem h) as Hsetitem.
        specialize (fun h1 => Hsetitem h1 ld ditems tditems k).
        destruct (get ditems k) as [sub|] eqn:Hgsub,
                 (dict_get tditems k) as [tsub|] eqn:Hgtsub; try done.
        -- destruct Hget as (pre & post & tpre & tpost & Hde & Htde & Hpre & Hsubr & Hpost & _).
           assert (forall l, l ∈ footprint h sub tsub ->
                             l ∈ footprint h (Ptr ld) (Dict tditems)) as Hsd.
           { intros l Hl. rewrite (footprint_Dict _ _ _ _ Hld). right. subst ditems tditems.
             rewrite items_footprint_middle by (by apply items_repr_length in Hpre).
             apply elem_of_app. right. apply elem_of_app. by left. }
           assert (NoDup (footprint h sub tsub)) as Hndsub.
           { rewrite (footprint_Dict _ _ _ _ Hld) in Hnd.
             apply NoDup_cons in Hnd as [_ Hnd]. subst ditems tditems.
             rewrite items_footprint_middle in Hnd by (by apply items_repr_length in Hpre).
             apply NoDup_app in Hnd as (_ & _ & Hnd).
             by apply NoDup_app in Hnd as (Hnd & _). }
           destruct (Hinner h sub tsub (Ptr lv)) as (h1 & Hrun & Hup1).
           { by apply (separate_child h (Ptr ld) (Dict tditems) (Ptr lu) (Dict tuitems)). }
           rewrite Hrun.
           destruct (DeepUpdate.deep_update tsub (Dict tvitems)) as [e1 tsub'] eqn:Htree.
           cbn [fst snd] in *.
           destruct Hup1 as (Hr1 & Hnd1 & Hlen1 & Hsub1 & Hfr1).
           assert (h1 !! ld = Some ditems) as Hld1.
           { rewrite <- Hld. apply Hfr1; [by apply lookup_lt_Some in Hld|].
             intros Hin. rewrite (footprint_Dict _ _ _ _ Hld) in Hnd.
             apply NoDup_cons in Hnd as [Hout _]. apply Hout.
             subst ditems tditems.
             rewrite items_footprint_middle by (by apply items_repr_length in Hpre).
             apply elem_of_app. right. apply elem_of_app. by left. }
           specialize (Hsetitem h1 sub tsub' Hld Hdrep Hnd Hlen1 Hfr1 Hr1 Hnd1 Hsub1).
           destruct e1 as [e|].
           ++ exists h1. split; [done|].
              by rewrite (setitem_same h1 ld ditems k sub) in Hsetitem.
           ++ by apply Hcont.
        -- clear Hget.
           assert (forall l, (l < length h)%nat -> (h ++ [[]]) !! l = h !! l) as Happ.
           { intros l Hl. by apply lookup_app_l. }
           destruct (repr_frame h (h ++ [[]]) (Dict tvitems) (Ptr lv) Hv) as [Hv1 Hfv1].
           { intros l Hl. apply Happ. by apply (footprint_lt h (Dict tvitems) (Ptr lv)). }
           assert ((h ++ [[]]) !! length h = Some []) as Hnew.
           { by apply list_lookup_middle. }
           destruct (Hinner (h ++ [[]]) (Ptr (length h)) (Dict []) (Ptr lv))
             as (h1 & Hrun & Hup1).
           { repeat split.
             - apply repr_Dict. exists (length h), []. repeat split; [done|constructor].
             - done.
             - rewrite (footprint_Dict _ _ _ _ Hnew). apply NoDup_singleton.
             - rewrite (footprint_Dict _ _ _ _ Hnew). repeat constructor.
               rewrite Hfv1. intros Hin.
               apply (footprint_lt h (Dict tvitems) (Ptr lv) Hv) in Hin. lia. }
           rewrite Hrun.
           destruct (DeepUpdate.deep_update (Dict []) (Dict tvitems)) as [e1 tsub'] eqn:Htree.
           cbn [fst snd] in *.
           destruct Hup1 as (Hr1 & Hnd1 & Hlen1 & Hsub1 & Hfr1).
           rewrite (footprint_Dict _ _ _ _ Hnew) in *.
           rewrite length_app in *. simpl in Hlen1, Hsub1, Hfr1.
           assert (forall l, (l < length h)%nat -> h1 !! l = h !! l) as Hfr.
           { intros l Hl. rewrite Hfr1; [by apply Happ|lia|].
             intros Hin. apply list_elem_of_singleton in Hin. lia. }
           destruct e1 as [e|].
           ++ exists h1. split; [done|].
              apply updates_grown; try done; [lia|].
              apply repr_Dict. by exists ld, ditems.
           ++ apply Hcont. apply Hsetitem; try done; [lia|by intros; apply Hfr|].
              intros l Hl. right. destruct (Hsub1 l Hl) as [Hin|Hge]; [|lia].
              apply list_elem_of_singleton in Hin. lia.
Qed.

Lemma depth_Dict titems :
  Forall (fun kt => (depth kt.2 < depth (Dict titems))%nat) titems.
Proof.
  induction titems as [|[k t] titems IH]; constructor.
  - simpl. lia.
  - eapply Forall_impl; [apply IH|]. intros kt. simpl. lia.
Qed.

(** On separate values, [deep_update] in the store does what
    [deep_update] on values does. *)
Lemma deep_update_store_tree tu :
  forall fuel, (depth tu < fuel)%nat -> refines (deep_update fuel) tu.
Proof.
  induction tu as [a|tuitems IH] using val_ind'; intros [|fuel] Hfuel; try lia.
  - intros h d td u (Hd & Hu & Hnd & Hdis). simpl in Hu. subst u.
    exists h. split; [done|]. by apply updates_refl.
  - intros h d td u Hsep. pose proof Hsep as (Hd & Hu & Hnd & Hdis).
    apply repr_Dict in Hu as (lu & uitems & -> & Hlu & Hrep).
    simpl. rewrite Hlu.
    apply (items_loop_refines (deep_update fuel) lu uitems tuitems d); try done.
    + pose proof (depth_Dict tuitems) as Hdepth.
      rewrite Forall_forall in *. intros kt Hin. apply (IH kt Hin).
      specialize (Hdepth kt Hin). simpl in *. lia.
    + apply items_repr_length in Hrep. lia.
Qed.


Lemma deep_update_unfold fuel h d lu :
  deep_update (S fuel) h d (Ptr lu) =
  match h !! lu with
  | None => None
  | Some uitems =>
      items_loop (deep_update fuel) lu (length uitems) d (length uitems) 0 h
  end.
Proof. done. Qed.

(** X16.  [deep_update(d, u)] on objects: when no mapping is met twice
    in [d] and none of [d] is met in [u], the call ends, raising or
    returning as [deep_update] on the values of [d] and [u] does, and
    leaves in [d] the value computed there; [d] still meets no mapping
    twice and none of [u], [u] has its value, and no mapping that was
    in the store and not in [d] has changed. *)
Theorem deep_update_separate_values fuel h d td u tu :
  separate h d td u tu -> (depth tu < fuel)%nat ->
  exists h',
    deep_update fuel h d u = Some (fst (DeepUpdate.deep_update td tu), h') /\
    updates h d td h' (snd (DeepUpdate.deep_update td tu)) /\
    separate h' d (snd (DeepUpdate.deep_update td tu)) u tu.
Proof.
  intros Hsep Hfuel.
  destruct (deep_update_store_tree tu fuel Hfuel h d td u Hsep) as (h' & Hrun & Hup).
  exists h'. split; [done|]. split; [done|].
  by apply (updates_separate h d td u tu).
Qed.

(** X6.  When no mapping is met twice in [d] and none of [d] is met in
    [u], whatever the mapping [u] is and whether or not the call
    raises: [deep_update] leaves a [d] that is no mapping as it is; in
    a mapping [d] it keeps every key, in its place, adds only keys of
    [u], after those of [d], and leaves the value of every key that [u]
    does not have as it was; [u] keeps its value. *)
Theorem deep_update_keeps_keys fuel h d td u (uitems : list (string * val)) :
  separate h d td u (Dict uitems) -> (depth (Dict uitems) < fuel)%nat ->
  exists e h' td',
    deep_update fuel h d u = Some (e, h') /\
    repr h' d td' /\ repr h' u (Dict uitems) /\
    match td with
    | DeepUpdate.Atom a => td' = Atom a
    | DeepUpdate.Dict ditems =>
        exists ritems new,
          td' = Dict ritems /\
          fst <$> ritems = (fst <$> ditems) ++ new /\
          (forall k, k ∈ new -> k ∈ fst <$> uitems) /\
          (forall k, k ∉ fst <$> uitems -> dict_get ritems k = dict_get ditems k)
    end.
Proof.
  intros Hsep Hfuel.
  destruct (deep_update_store_tree _ fuel Hfuel h d td u Hsep) as (h' & Hrun & Hup).
  destruct (updates_separate _ _ _ _ _ _ _ Hsep Hup) as ((_ & Hu' & _) & _).
  destruct (DeepUpdate.deep_update td (Dict uitems)) as [e td'] eqn:Htree.
  exists e, h', td'. split; [done|]. split; [apply Hup|]. split; [done|].
  by apply (deep_update_val_keeps_keys td uitems e td').
Qed.

(** X7.  When no mapping is met twice in the mapping [d] and none of
    [d] is met in [u], and [deep_update(d, u)] returns: under every key
    of [u] whose value is no mapping, [d] holds that value; under every
    key of [u] whose value is a mapping, [d] holds the result of
    updating with it what [d] held there before, or an empty mapping if
    [d] had no such key.  The order of the items of [u] plays no
    role. *)
Theorem deep_update_merges fuel h d u (ditems uitems : list (string * val)) h' :
  separate h d (Dict ditems) u (Dict uitems) ->
  (depth (Dict uitems) < fuel)%nat ->
  NoDup (fst <$> uitems) ->
  deep_update fuel h d u = Some (None, h') ->
  exists ritems,
    repr h' d (Dict ritems) /\
    forall k v, (k, v) ∈ uitems ->
      match v with
      | DeepUpdate.Atom a => dict_get ritems k = Some (Atom a)
      | DeepUpdate.Dict _ =>
          exists sub' : val,
            dict_get ritems k = Some sub' /\
            DeepUpdate.deep_update (default (Dict []) (dict_get ditems k)) v
              = (None, sub')
      end.
Proof.
  intros Hsep Hfuel Hnd Hrun.
  destruct (deep_update_store_tree _ fuel Hfuel h d _ u Hsep) as (h1 & Hrun1 & Hup).
  destruct (DeepUpdate.deep_update (Dict ditems) (Dict uitems)) as [e td'] eqn:Htree.
  rewrite Hrun in Hrun1. injection Hrun1 as <- <-. cbn [fst snd] in *. 
  destruct (deep_update_lookup ditems uitems td' Hnd Htree) as (ritems & -> & Hlook).
  exists ritems. split; [apply Hup|done].
Qed.

(** X9.  [deep_update] is idempotent where no mapping is met twice in
    [d] and none of [d] is met in [u]: when [deep_update(d, u)]
    returns, updating [d] with [u] again returns and leaves in [d] the
    value it had.  (The keys of a mapping being distinct.) *)
Theorem deep_update_idempotent fuel h d td u tu h' :
  separate h d td u tu -> DeepUpdate.wf tu -> (depth tu < fuel)%nat ->
  deep_update fuel h d u = Some (None, h') ->
  exists td' h'',
    repr h' d td' /\
    deep_update fuel h' d u = Some (None, h'') /\
    repr h'' d td' /\ repr h'' u tu.
Proof.
  intros Hsep Hwf Hfuel Hrun.
  destruct (deep_update_store_tree _ fuel Hfuel h d _ u Hsep) as (h1 & Hrun1 & Hup).
  destruct (DeepUpdate.deep_update td tu) as [e td'] eqn:Htree.
  rewrite Hrun in Hrun1. injection Hrun1 as <- <-. cbn [fst snd] in *.
  destruct (updates_separate _ _ _ _ _ _ _ Hsep Hup) as (Hsep' & _).
  pose proof (deep_update_val_idempotent tu Hwf td td' Htree) as Htree'.
  destruct (deep_update_store_tree _ fuel Hfuel h' d _ u Hsep') as (h'' & Hrun2 & Hup2).
  rewrite Htree' in Hrun2, Hup2. cbn [fst snd] in *.
  destruct (updates_separate _ _ _ _ _ _ _ Hsep' Hup2) as ((_ & Hu'' & _) & _).
  exists td', h''. split; [apply Hup|]. split; [done|]. split; [apply Hup2|done].
Qed.

(** X15.  Where no mapping is met twice in [d] and none of [d] is met
    in [u]: [deep_update(d, u)] with a mapping [u] returns if [d] has a
    mapping, or no item, wherever [u] has a non-empty mapping, at every
    depth, and raises if not: if somewhere a non-empty mapping of [u]
    meets a value of [d] that is no mapping. *)
Theorem deep_update_returns_iff_fits fuel h d td u tu :
  separate h d td u tu -> DeepUpdate.wf tu -> (depth tu < fuel)%nat ->
  (DeepUpdate.fits td tu -> exists h', deep_update fuel h d u = Some (None, h')) /\
  (~ DeepUpdate.fits td tu ->
   exists e h', deep_update fuel h d u = Some (Some e, h')).
Proof.
  intros Hsep Hwf Hfuel.
  destruct (deep_update_store_tree _ fuel Hfuel h d _ u Hsep) as (h' & Hrun & _).
  pose proof (deep_update_val_returns_iff_fits tu Hwf td) as Hiff.
  destruct (DeepUpdate.deep_update td tu) as [[e|] td'] eqn:Htree; cbn [fst snd] in *.
  - split.
    + intros Hfits. by apply Hiff in Hfits.
    + intros _. by exists e, h'.
  - split.
    + intros _. by exists h'.
    + intros Hno. exfalso. by apply Hno, Hiff.
Qed.

(** X17.  A mapping that [d] holds under two keys is one mapping:
    [deep_update(d, {a: {q: c}})] returns, puts [c] under [q] in the
    mapping that [d] holds under [a], and so in what [d] holds under
    [b], though [u] has no key [b]; [d] holds under [a] and [b] what it
    held, and no other mapping has changed. *)
Theorem deep_update_shared_mapping h ld lx lu lv ditems xitems a b q (c : A) :
  h !! ld = Some ditems -> h !! lx = Some xitems ->
  get ditems a = Some (Ptr lx) -> get ditems b = Some (Ptr lx) ->
  h !! lu = Some [(a, Ptr lv)] -> h !! lv = Some [(q, Obj c)] ->
  ld <> lx -> lu <> lx -> lv <> lx ->
  exists h' xitems',
    deep_update 2 h (Ptr ld) (Ptr lu) = Some (None, h') /\
    h' !! ld = Some ditems /\ get ditems b = Some (Ptr lx) /\
    h' !! lx = Some xitems' /\ get xitems' q = Some (Obj c) /\
    xitems' = set xitems q (Obj c) /\
    (forall l, l <> lx -> h' !! l = h !! l).
Proof.
  intros Hld Hlx Ha Hb Hlu Hlv Hxd Hxu Hxv.
  set (h1 := setitem h lx q (Obj c)).
  assert (forall l, l <> lx -> h1 !! l = h !! l) as H1.
  { intros l Hne. unfold h1, setitem. by rewrite list_lookup_alter_ne. }
  assert (h1 !! lx = Some (set xitems q (Obj c))) as H1x.
  { unfold h1, setitem. rewrite list_lookup_alter, decide_True by done. by rewrite Hlx. }
  assert (deep_update 1 h (Ptr lx) (Ptr lv) = Some (None, h1)) as Hinner.
  { rewrite deep_update_unfold, Hlv, items_loop_unfold, Hlv.
    cbn -[deep_update items_loop setitem]. fold h1.
    rewrite items_loop_unfold, (H1 lv), Hlv by done. done. }
  assert (setitem h1 ld a (Ptr lx) = h1) as Hsame.
  { apply (setitem_same h1 ld ditems); [|done]. by rewrite H1. }
  exists h1, (set xitems q (Obj c)).
  split; [|split; [by rewrite H1|repeat split; try done; apply get_set_eq]].
  rewrite deep_update_unfold, Hlu, items_loop_unfold, Hlu.
  cbn -[deep_update items_loop setitem].
  rewrite Hld, Ha, Hinner, Hsame.
  rewrite items_loop_unfold, (H1 lu), Hlu by done. done.
Qed.

End DeepUpdateStore.

(** ** [validate_ia_identifier] and [needs_quote] *)

Section Identifier.
Import Identifier.

Lemma contains_elem (s : text) (c : N) : contains s c = true <-> c ∈ s.
Proof.
  unfold contains. rewrite existsb_exists, list_elem_of_In. split.
  - intros (x & Hx & Heq). apply N.eqb_eq in Heq. by subst.
  - intros Hc. exists c. split; [done|apply N.eqb_refl].
Qed.

Lemma alnum_dashb_spec (c : N) : alnum_dashb c = true <-> alnum_dash c.
Proof.
  unfold alnum_dashb, alnum_dash.
  rewrite !orb_true_iff, !andb_true_iff, !N.leb_le, !N.eqb_eq. tauto.
Qed.

Lemma below_128 (P : N -> bool) :
  forallb P (N.of_nat <$> seq 0 128) = true ->
  forall c, (c < 128)%N -> P c = true.
Proof.
  intros Hall c Hc. rewrite forallb_forall in Hall. apply Hall.
  apply list_elem_of_In, list_elem_of_fmap. exists (N.to_nat c).
  split; [by rewrite N2Nat.id|]. apply elem_of_seq. lia.
Qed.

(** The literal [legal_chars] holds the letters, the digits, the
    underscore and the hyphen, all of them and nothing else. *)
Lemma legal_chars_alnum_dash (c : N) :
  contains legal_chars c = true <-> alnum_dash c.
Proof.
  rewrite <- alnum_dashb_spec. destruct (N.ltb_spec c 128) as [Hlt|Hge].
  - pose proof (below_128
      (fun n => Bool.eqb (contains legal_chars n) (alnum_dashb n))
      ltac:(by vm_compute) c Hlt) as Heq.
    apply Bool.eqb_prop in Heq. by rewrite Heq.
  - split.
    + intros Hin. apply contains_elem in Hin.
      assert (Forall (fun n => (n < 128)%N) legal_chars) as Hall.
      { apply Forall_forall. intros n Hn. apply N.ltb_lt.
        apply list_elem_of_In in Hn. revert n Hn. apply forallb_forall.
        by vm_compute. }
      pose proof (proj1 (Forall_forall _ _) Hall c Hin). simpl in *. lia.
    + intros Hb. apply alnum_dashb_spec in Hb. unfold alnum_dash in Hb. lia.
Qed.

Lemma validate_Ok (s : text) :
  validate_ia_identifier s = Ok true <->
  (3 <= length s <= 80)%nat /\ Forall alnum_dash s.
Proof.
  unfold validate_ia_identifier.
  destruct (Nat.leb_spec (length s) 80), (Nat.leb_spec 3 (length s)); simpl;
    try (split; [done|lia]).
  destruct (forallb (contains legal_chars) s) eqn:Hall; simpl.
  - split; [|done]. intros _. split; [lia|].
    rewrite forallb_forall in Hall. apply Forall_forall. intros c Hc.
    apply legal_chars_alnum_dash, Hall. by apply list_elem_of_In.
  - split; [done|]. intros [_ Hs]. exfalso.
    assert (forallb (contains legal_chars) s = true) as Htrue; [|congruence].
    apply forallb_forall. intros c Hc. apply legal_chars_alnum_dash.
    apply (proj1 (Forall_forall _ _) Hs). by apply list_elem_of_In.
Qed.

(** X11.  [validate_ia_identifier] returns [True] exactly for the
    strings of 3 to 80 characters that are all ASCII letters, digits,
    underscores or hyphens; for every other string it raises
    [AssertionError]; it never returns [False]. *)
Theorem validate_ia_identifier_spec (s : text) :
  (validate_ia_identifier s = Ok true <->
   (3 <= length s <= 80)%nat /\ Forall alnum_dash s) /\
  (validate_ia_identifier s = Ok true \/
   validate_ia_identifier s = Raise AssertionError).
Proof.
  split; [apply validate_Ok|].
  unfold validate_ia_identifier.
  destruct (negb _); [by right|]. destruct (negb _); [by right|by left].
Qed.

(** X12.  A string that [validate_ia_identifier] accepts needs no
    quote, whichever whitespace class [\s] stands for, as long as that
    class holds no letter, digit, underscore or hyphen; this is so for
    the class of byte patterns and for the class of text patterns. *)
Theorem valid_identifier_needs_no_quote (space : N -> bool) (s : text) :
  (forall c, alnum_dash c -> space c = false) ->
  validate_ia_identifier s = Ok true ->
  needs_quote space s = false.
Proof.
  intros Hspace Hvalid. apply validate_Ok in Hvalid as [_ Hs].
  unfold needs_quote.
  assert (forallb (fun c => (c <? 128)%N) s = true) as ->.
  { apply forallb_forall. intros c Hc. apply N.ltb_lt.
    apply list_elem_of_In in Hc.
    pose proof (proj1 (Forall_forall _ _) Hs c Hc) as Hc'.
    unfold alnum_dash in Hc'. lia. }
  destruct (existsb space s) eqn:Hex; [|done].
  apply existsb_exists in Hex as (c & Hc & Hsp).
  apply list_elem_of_In in Hc.
  rewrite (Hspace c (proj1 (Forall_forall _ _) Hs c Hc)) in Hsp. done.
Qed.

End Identifier.

(** ** [map2x] *)

Section Map2x.
Import Map2x.
Context {A B : Type}.
Implicit Types (ls : list (list (value A))) (l : list (value A)).

Lemma exhausted_max ls :
  exhausted ls = true <-> max_list (length <$> ls) = 0%nat.
Proof.
  induction ls as [|l ls IH]; simpl; [done|].
  rewrite andb_true_iff, IH. destruct l; simpl; [tauto|]. split; [by intros []|lia].
Qed.

Lemma max_tails ls :
  max_list (length <$> tails ls) = Nat.pred (max_list (length <$> ls)).
Proof.
  induction ls as [|l ls IH]; [done|].
  unfold tails in *. rewrite !fmap_cons. cbn [max_list]. rewrite IH.
  destruct l; simpl; lia.
Qed.

Lemma heads_lookup ls :
  heads ls = (fun l => default PyNone (l !! 0%nat)) <$> ls.
Proof. unfold heads. apply list_fmap_ext. by intros _ [|x l] _. Qed.

Lemma tails_lookup ls (i : nat) :
  (fun l => default PyNone (l !! i)) <$> tails ls
    = (fun l => default PyNone (l !! S i)) <$> ls.
Proof.
  unfold tails. rewrite <- list_fmap_compose. apply list_fmap_ext.
  by intros _ [|x l] _.
Qed.

Lemma zip_longest_upto_rows (fuel : nat) ls :
  (max_list (length <$> ls) <= fuel)%nat ->
  zip_longest_upto fuel ls
    = (fun i : nat => (fun l => default PyNone (l !! i)) <$> ls)
        <$> seq 0 (max_list (length <$> ls)).
Proof.
  revert ls. induction fuel as [|fuel IH]; intros ls Hfuel; simpl.
  - by replace (max_list (length <$> ls)) with 0%nat by lia.
  - destruct (exhausted ls) eqn:Hex.
    + apply exhausted_max in Hex. by rewrite Hex.
    + assert (max_list (length <$> ls) <> 0%nat) as Hpos.
      { intros Hz. apply exhausted_max in Hz. congruence. }
      pose proof (max_tails ls) as Htl.
      rewrite IH by lia. rewrite Htl.
      destruct (max_list (length <$> ls)) as [|m]; [done|]. simpl.
      rewrite heads_lookup. f_equal.
      rewrite <- fmap_S_seq, <- list_fmap_compose.
      apply list_fmap_ext. intros _ i _. simpl. apply tails_lookup.
Qed.

(** X13.  [map2x] yields as many results as the longest iterable has
    elements, none is cut off: result [i] is [func] applied to the tuple
    of the elements at position [i] of all iterables, with [None] in
    place of the element of an iterable that has fewer; with [func] set
    to [None] the results are these tuples. *)
Theorem map2x_pads_to_longest (f : list (value A) -> B) ls :
  let n := max_list (length <$> ls) in
  let row := fun i : nat => (fun l => default PyNone (l !! i)) <$> ls in
  map2x (B := B) None ls = Tuples (row <$> seq 0 n) /\
  map2x (Some f) ls = Results (f ∘ row <$> seq 0 n).
Proof.
  intros n row. unfold map2x, zip_longest.
  rewrite zip_longest_upto_rows by done. split; [done|].
  by rewrite <- list_fmap_compose.
Qed.

End Map2x.

(** ** A slice read twice *)

Section SliceMemo.
Context {Item W : Type} (get_item : string -> W -> result (value Item) * W).
Import IdentifierListAsItems.

Local Abbreviation resolve' := (resolve get_item).
Local Abbreviation getitem := (__getitem__ get_item).

Lemma getitems_Forall2 {X} (l : list X) (sel : list Z) (xs : list X) :
  Forall (fun i => 0 <= i < Z.of_nat (length l)) sel ->
  getitems l sel = Ok xs ->
  Forall2 (fun i x => l !! Z.to_nat i = Some x) sel xs.
Proof.
  intros Hsel. revert xs. induction Hsel as [|i sel Hi _ IH]; intros xs; simpl.
  - intros [= <-]. constructor.
  - destruct (list_getitem_norm l i _ (norm_index_pos _ _ Hi)) as (x & Hx & ->).
    destruct (getitems l sel) as [xs'|e]; [|done].
    intros [= <-]. constructor; [done|]. by apply IH.
Qed.

Lemma for_each_all_set (sel : list Z) (s : state Item W) :
  Forall (fun i => 0 <= i < Z.of_nat (length (_items (self s))) /\
                   exists o, _items (self s) !! Z.to_nat i = Some (PyObj o)) sel ->
  for_each sel resolve' s = (Ok tt, s).
Proof.
  induction 1 as [|i sel [Hi [o Ho]] _ IH]; simpl; [done|].
  unfold mbind, M_bind.
  by rewrite (resolve_cached get_item s i _ o (norm_index_pos _ _ Hi) Ho), IH.
Qed.

(** X14.  When [get] with a slice returns a list without [None], the
    same call again returns the same list without invoking the resolver
    and without changing anything. *)
Theorem getitem_slice_twice_memoized (s s1 : state Item W) (sl : slice)
    (l : list (value Item)) :
  inv (self s) ->
  getitem (Slc sl) s = (Ok (Many l), s1) ->
  Forall (fun v => v <> PyNone) l ->
  getitem (Slc sl) s1 = (Ok (Many l), s1).
Proof.
  intros Hinv Hget Hobj.
  assert (step sl <> Some 0) as Hstep.
  { intros Hz. by rewrite getitem_slice_unfold, (slice_range_zero _ _ Hz) in Hget. }
  destruct (slice_range_Ok sl (length (ids (self s))) Hstep)
    as (sel & Hsel & Hb & _).
  fold (__len__ (self s)) in Hsel.
  rewrite (getitem_slice_selected get_item _ _ _ Hinv Hsel) in Hget.
  destruct (for_each sel resolve' s) as [[[]|e] s'] eqn:Hloop; [|done].
  destruct (for_each_frame get_item _ _ _ _ Hinv Hloop) as (Hinv1 & Hids & _).
  destruct (getitems (_items (self s')) sel) as [xs|e] eqn:Hxs; [|done].
  injection Hget as -> ->.
  assert (Forall (fun i => 0 <= i < Z.of_nat (length (_items (self s1)))) sel)
    as Hb1.
  { replace (length (_items (self s1))) with (length (ids (self s))); [done|].
    unfold inv in *. congruence. }
  assert (slice_range sl (__len__ (self s1)) = Ok sel) as Hsel1.
  { unfold __len__ in *. by rewrite Hids. }
  rewrite (getitem_slice_selected get_item _ _ _ Hinv1 Hsel1).
  rewrite for_each_all_set, Hxs; [done|].
  pose proof (getitems_Forall2 _ _ _ Hb1 Hxs) as Hall.
  clear Hxs Hloop Hsel Hsel1 Hb. induction Hall as [|i x sel l Hix _ IH]; [constructor|].
  apply Forall_cons in Hobj as [Hx Hobj]. apply Forall_cons in Hb1 as [Hi Hb1].
  constructor; [|by apply IH]. split; [done|].
  destruct x as [|o]; [done|eauto].
Qed.

End SliceMemo.

(** ** The properties above on concrete data *)

Section MoreExamples.
Import Fixtures.


Lemma chunk_generator_edge_sizes_witness :
  ChunkGenerator.drain 1 (ChunkGenerator.chunk_generator abcde 0)
    = Some ([], None, ChunkGenerator.Build abcde 0 true) /\
  (exists f',
     ChunkGenerator.drain 2 (ChunkGenerator.chunk_generator abcde (-1))
       = Some ([File.rest abcde], None, ChunkGenerator.Build f' (-1) true) /\
     File.rest f' = []) /\
  (- File.ssize_max - 1 <= -2 < -1 /\
   ChunkGenerator.drain 1 (ChunkGenerator.chunk_generator abcde (-2))
     = Some ([], Some (Exn ValueError "read length must be non-negative or -1"),
             ChunkGenerator.Build abcde (-2) true)) /\
  ((2 ^ 63 < - File.ssize_max - 1 \/ File.ssize_max < 2 ^ 63) /\
   ChunkGenerator.drain 1 (ChunkGenerator.chunk_generator abcde (2 ^ 63))
     = Some ([], Some File.OverflowError,
             ChunkGenerator.Build abcde (2 ^ 63) true)).
Proof.
  assert (- File.ssize_max - 1 <= -2 < -1) as Hneg by (split; [discriminate|lia]).
  assert (2 ^ 63 < - File.ssize_max - 1 \/ File.ssize_max < 2 ^ 63) as Hbig
    by (right; reflexivity).
  destruct (chunk_generator_edge_sizes 0 0 abcde) as (Hzero & _).
  destruct (chunk_generator_edge_sizes (-1) 0 abcde) as (_ & Hall & _).
  destruct (chunk_generator_edge_sizes (-2) 0 abcde) as (_ & _ & Hval & _).
  destruct (chunk_generator_edge_sizes (2 ^ 63) 0 abcde) as (_ & _ & _ & Hover).
  destruct (Hall eq_refl) as (f' & Hcol & Hend & _).
  refine (conj (Hzero eq_refl) (conj _ (conj (conj Hneg (Hval Hneg))
                                             (conj Hbig (Hover Hbig))))).
  exists f'. exact (conj Hcol Hend).
Defined.

Lemma adapter_over_finite_source_witness :
  let chunks := [["b"; "c"; "d"]; ["e"]]%byte in
  exists c',
    ChunkGenerator.collect 5 abcde_by_3 = Some (chunks, c') /\
    fst (IterableToFileAdapter.reads (IterableToFileAdapter.__init__ abcde_by_3 4)
           [-1; -1; -1])
      = fst (IterableToFileAdapter.reads (IterableToFileAdapter.__init__ chunks 4)
               [-1; -1; -1]).
Proof.
  intros chunks. eexists.
  assert (ChunkGenerator.collect 5 abcde_by_3 = Some (chunks, _)) as Hcol
    by reflexivity.
  destruct (adapter_over_finite_source 5 abcde_by_3 _ chunks 4 [-1; -1; -1] Hcol)
    as (Hsame & _).
  exact (conj Hcol Hsame).
Defined.


Lemma get_md5_digests_rest_witness :
  (forall m a b, fed_update (fed_update m a) b = fed_update m (a ++ b)) /\
  (length (File.rest abcde) < 5)%nat /\
  Md5.get_md5 fed_new fed_update fed_digest 5 abcde
    = Some (Ok (fed_digest (match File.rest abcde with
                            | [] => fed_new
                            | _ :: _ => fed_update fed_new (File.rest abcde)
                            end)),
            File.Build (File.content abcde) 0).
Proof.
  assert (forall m a b, fed_update (fed_update m a) b = fed_update m (a ++ b))
    as Hlaw by (intros m a b; unfold fed_update; symmetry; apply app_assoc).
  assert (length (File.rest abcde) < 5)%nat as Hfuel by (simpl; lia).
  exact (conj Hlaw (conj Hfuel
           (get_md5_digests_rest fed_new fed_update fed_digest 5 abcde Hlaw Hfuel))).
Defined.

Import DeepUpdate.

Lemma wf_patch : wf patch.
Proof.
  apply wf_Dict. split; [apply (bool_decide_unpack _); vm_compute; exact I|].
  constructor; [|constructor; [|constructor; [|constructor]]].
  - apply wf_Dict. split; [apply (bool_decide_unpack _); vm_compute; exact I|].
    constructor; [exact I|constructor].
  - exact I.
  - apply wf_Dict. split; constructor.
Defined.

Lemma deep_update_empty_copies_witness :
  wf patch /\ deep_update (Dict []) patch = (None, patch).
Proof. exact (conj wf_patch (deep_update_empty_copies patch wf_patch)). Defined.

Lemma deep_update_over_non_mapping_witness :
  let ditems := [("title", Atom "old"); ("meta", Dict [("a", Atom "1")])] in
  dict_get ditems "title" = Some (Atom "old") /\
  deep_update (Dict ditems) (Dict [("title", Dict [])])
    = deep_update (Dict ditems) (Dict []) /\
  deep_update (Dict ditems) (Dict [("title", Dict [("y", Atom "2")])])
    = (Some (Exn (OtherError "TypeError") ""), Dict ditems).
Proof.
  intros ditems.
  assert (dict_get ditems "title" = Some (Atom "old")) as Hget by reflexivity.
  destruct (deep_update_over_non_mapping ditems "title" "old" [] Hget)
    as (Hempty & Htype & _).
  exact (conj Hget (conj Hempty (Htype "y" "2" []))).
Defined.

Lemma valid_identifier_needs_no_quote_witness :
  let s := Identifier.code_points "nasa_image-01" in
  (forall c, Identifier.alnum_dash c -> Identifier.space_text c = false) /\
  Identifier.validate_ia_identifier s = Ok true /\
  Identifier.needs_quote Identifier.space_text s = false.
Proof.
  intros s.
  assert (forall c, Identifier.alnum_dash c -> Identifier.space_text c = false)
    as Hspace.
  { intros c Hc. unfold Identifier.alnum_dash in Hc.
    unfold Identifier.space_text, Identifier.contains. simpl.
    repeat match goal with
           | |- context [(c =? ?n)%N] => destruct (N.eqb_spec c n); [lia|]
           end.
    reflexivity. }
  assert (Identifier.validate_ia_identifier s = Ok true) as Hvalid by reflexivity.
  exact (conj Hspace (conj Hvalid
           (valid_identifier_needs_no_quote Identifier.space_text s Hspace Hvalid))).
Defined.

Lemma getitem_slice_twice_memoized_witness :
  let sl := Slice (Some 0) (Some 2) None in
  let l := [PyObj "a"; PyObj "b"] in
  let s1 := snd (IdentifierListAsItems.__getitem__ Sessions.echo
                   (IdentifierListAsItems.Slc sl) Sessions.abc) in
  IdentifierListAsItems.inv (IdentifierListAsItems.self Sessions.abc) /\
  IdentifierListAsItems.__getitem__ Sessions.echo (IdentifierListAsItems.Slc sl)
    Sessions.abc = (Ok (IdentifierListAsItems.Many l), s1) /\
  Forall (fun v => v <> PyNone) l /\
  IdentifierListAsItems.__getitem__ Sessions.echo (IdentifierListAsItems.Slc sl) s1
    = (Ok (IdentifierListAsItems.Many l), s1).
Proof.
  intros sl l s1.
  assert (IdentifierListAsItems.inv (IdentifierListAsItems.self Sessions.abc))
    as Hinv by reflexivity.
  assert (IdentifierListAsItems.__getitem__ Sessions.echo
            (IdentifierListAsItems.Slc sl) Sessions.abc
          = (Ok (IdentifierListAsItems.Many l), s1)) as Hget by reflexivity.
  assert (Forall (fun v : value string => v <> PyNone) l) as Hobj
    by (repeat constructor; discriminate).
  exact (conj Hinv (conj Hget (conj Hobj
           (getitem_slice_twice_memoized Sessions.echo Sessions.abc s1 sl l
              Hinv Hget Hobj)))).
Defined.

End MoreExamples.

Section StoreExamples.
Import Fixtures DeepUpdateStore.

Lemma separate_shelf : separate shelf (Ptr 0) metadata (Ptr 2) patch.
Proof.
  split; [simpl; tauto|]. split; [simpl; tauto|].
  split; apply (bool_decide_unpack _); vm_compute; exact I.
Defined.

Lemma depth_patch : (depth patch < 3)%nat.
Proof. simpl. lia. Defined.

Lemma deep_update_separate_values_witness :
  separate shelf (Ptr 0) metadata (Ptr 2) patch /\ (depth patch < 3)%nat /\
  exists h',
    deep_update 3 shelf (Ptr 0) (Ptr 2)
      = Some (fst (DeepUpdate.deep_update metadata patch), h') /\
    updates shelf (Ptr 0) metadata h' (snd (DeepUpdate.deep_update metadata patch)) /\
    separate h' (Ptr 0) (snd (DeepUpdate.deep_update metadata patch)) (Ptr 2) patch.
Proof.
  exact (conj separate_shelf (conj depth_patch
    (deep_update_separate_values 3 shelf (Ptr 0) metadata (Ptr 2) patch
       separate_shelf depth_patch))).
Defined.

Lemma deep_update_keeps_keys_witness :
  let ditems := [("title", DeepUpdate.Atom "old");
                 ("meta", DeepUpdate.Dict [("a", DeepUpdate.Atom "1")])] in
  let uitems := [("meta", DeepUpdate.Dict [("b", DeepUpdate.Atom "2")]);
                 ("title", DeepUpdate.Atom "new"); ("tags", DeepUpdate.Dict [])] in
  separate shelf (Ptr 0) (DeepUpdate.Dict ditems) (Ptr 2) (DeepUpdate.Dict uitems) /\
  (depth (DeepUpdate.Dict uitems) < 3)%nat /\
  exists e h' td',
    deep_update 3 shelf (Ptr 0) (Ptr 2) = Some (e, h') /\
    repr h' (Ptr 0) td' /\ repr h' (Ptr 2) (DeepUpdate.Dict uitems) /\
    exists ritems new,
      td' = DeepUpdate.Dict ritems /\
      fst <$> ritems = (fst <$> ditems) ++ new /\
      (forall k, k ∈ new -> k ∈ fst <$> uitems) /\
      (forall k, k ∉ fst <$> uitems ->
         DeepUpdate.dict_get ritems k = DeepUpdate.dict_get ditems k).
Proof.
  intros ditems uitems.
  exact (conj separate_shelf (conj depth_patch
    (deep_update_keeps_keys 3 shelf (Ptr 0) (DeepUpdate.Dict ditems) (Ptr 2) uitems
       separate_shelf depth_patch))).
Defined.

Lemma shelf_run :
  exists h', deep_update 3 shelf (Ptr 0) (Ptr 2) = Some (None, h').
Proof. eexists. vm_compute. reflexivity. Defined.

Lemma deep_update_merges_witness :
  let ditems := [("title", DeepUpdate.Atom "old");
                 ("meta", DeepUpdate.Dict [("a", DeepUpdate.Atom "1")])] in
  let uitems := [("meta", DeepUpdate.Dict [("b", DeepUpdate.Atom "2")]);
                 ("title", DeepUpdate.Atom "new"); ("tags", DeepUpdate.Dict [])] in
  NoDup (fst <$> uitems) /\
  exists h' ritems,
    deep_update 3 shelf (Ptr 0) (Ptr 2) = Some (None, h') /\
    repr h' (Ptr 0) (DeepUpdate.Dict ritems) /\
    DeepUpdate.dict_get ritems "title" = Some (DeepUpdate.Atom "new") /\
    exists sub' : DeepUpdate.val string,
      DeepUpdate.dict_get ritems "meta" = Some sub' /\
      DeepUpdate.deep_update
        (default (DeepUpdate.Dict []) (DeepUpdate.dict_get ditems "meta"))
        (DeepUpdate.Dict [("b", DeepUpdate.Atom "2")]) = (None, sub').
Proof.
  intros ditems uitems.
  assert (NoDup (fst <$> uitems)) as Hnd
    by (apply (bool_decide_unpack _); vm_compute; exact I).
  assert (("title", DeepUpdate.Atom "new") ∈ uitems) as Htitle
    by (apply list_elem_of_lookup; exists 1%nat; reflexivity).
  assert (("meta", DeepUpdate.Dict [("b", DeepUpdate.Atom "2")]) ∈ uitems) as Hmeta
    by (apply list_elem_of_lookup; exists 0%nat; reflexivity).
  destruct shelf_run as (h' & Hrun).
  destruct (deep_update_merges 3 shelf (Ptr 0) (Ptr 2) ditems uitems h'
              separate_shelf depth_patch Hnd Hrun) as (ritems & Hrep & Hlook).
  refine (conj Hnd _). exists h', ritems.
  exact (conj Hrun (conj Hrep (conj (Hlook _ _ Htitle) (Hlook _ _ Hmeta)))).
Defined.

Lemma deep_update_idempotent_witness :
  separate shelf (Ptr 0) metadata (Ptr 2) patch /\ DeepUpdate.wf patch /\
  exists h' td' h'',
    deep_update 3 shelf (Ptr 0) (Ptr 2) = Some (None, h') /\
    repr h' (Ptr 0) td' /\
    deep_update 3 h' (Ptr 0) (Ptr 2) = Some (None, h'') /\
    repr h'' (Ptr 0) td' /\ repr h'' (Ptr 2) patch.
Proof.
  destruct shelf_run as (h' & Hrun).
  destruct (deep_update_idempotent 3 shelf (Ptr 0) metadata (Ptr 2) patch h'
              separate_shelf wf_patch depth_patch Hrun) as (td' & h'' & Hagain).
  refine (conj separate_shelf (conj wf_patch _)). exists h', td', h''.
  exact (conj Hrun Hagain).
Defined.

Lemma separate_shelf_none :
  separate shelf (Ptr 5) (DeepUpdate.Dict [("meta", DeepUpdate.Atom "none")])
           (Ptr 2) patch.
Proof.
  split; [simpl; tauto|]. split; [simpl; tauto|].
  split; apply (bool_decide_unpack _); vm_compute; exact I.
Defined.

Lemma deep_update_returns_iff_fits_witness :
  DeepUpdate.wf patch /\
  (DeepUpdate.fits metadata patch /\
   exists h', deep_update 3 shelf (Ptr 0) (Ptr 2) = Some (None, h')) /\
  (~ DeepUpdate.fits (DeepUpdate.Dict [("meta", DeepUpdate.Atom "none")]) patch /\
   exists e h', deep_update 3 shelf (Ptr 5) (Ptr 2) = Some (Some e, h')).
Proof.
  assert (DeepUpdate.fits metadata patch) as Hfits by (simpl; tauto).
  assert (~ DeepUpdate.fits (DeepUpdate.Dict [("meta", DeepUpdate.Atom "none")]) patch)
    as Hno by (simpl; tauto).
  exact (conj wf_patch
    (conj (conj Hfits
             (proj1 (deep_update_returns_iff_fits 3 shelf (Ptr 0) metadata (Ptr 2) patch
                       separate_shelf wf_patch depth_patch) Hfits))
          (conj Hno
             (proj2 (deep_update_returns_iff_fits 3 shelf (Ptr 5) _ (Ptr 2) patch
                       separate_shelf_none wf_patch depth_patch) Hno)))).
Defined.

Lemma deep_update_shared_mapping_witness :
  exists h' xitems',
    deep_update 2 shared (Ptr 0) (Ptr 2) = Some (None, h') /\
    h' !! 0%nat = Some [("a", Ptr 1); ("b", Ptr 1)] /\
    @get string [("a", Ptr 1); ("b", Ptr 1)] "b" = Some (Ptr 1) /\
    h' !! 1%nat = Some xitems' /\ get xitems' "q" = Some (Obj "2") /\
    xitems' = [("p", Obj "1"); ("q", Obj "2")] /\
    (forall l, l <> 1%nat -> h' !! l = shared !! l).
Proof.
  exact (deep_update_shared_mapping shared 0 1 2 3
           [("a", Ptr 1); ("b", Ptr 1)] [("p", Obj "1")] "a" "b" "q" "2"
           eq_refl eq_refl eq_refl eq_refl eq_refl eq_refl
           ltac:(discriminate) ltac:(discriminate) ltac:(discriminate)).
Defined.

End StoreExamples.
